(** * reddit_character_ai_config: the extraction, cleaning, ranking and
      packing pipeline of [src/reddit_character_ai_config.py]

    The development embeds [Conversation] (with [_clean_text] and
    [format_for_character_ai]) and [CharacterGenerator] (with
    [_extract_conversations], the sort of [generate_character_definition] and
    [_build_definition]) and proves the properties of the specification
    about them.

    Text.  A Python [str] is a sequence of code points and [len] counts
    them.  Here a string is a [list ascii], one [ascii] per code point, so
    the development covers the strings whose code points are below 256
    (the Latin-1 range); the character tables ([\s], [\w], case folding)
    are those of the interpreter on that range.

    Integers.  Python's [int] is unbounded: [Z]. *)

From Stdlib Require Import Ascii String.
From Stdlib Require Import List ZArith Lia Bool Arith.
From Stdlib Require Import Permutation Sorted DecimalString.
Import ListNotations.

Set Implicit Arguments.

(** ** Strings *)

Definition str : Type := list ascii.

(** A string literal of the source. *)
Definition py (s : string) : str := list_ascii_of_string s.

(** [len(s)] *)
Definition len (s : str) : Z := Z.of_nat (length s).

Definition code (c : ascii) : nat := nat_of_ascii c.

Definition newline : ascii := ascii_of_nat 10.

(** [Py_UNICODE_ISSPACE] on the code points below 256; it decides both
    [str.strip()] and the class [\s] of a [str] pattern. *)
Definition isspace (c : ascii) : bool :=
  let n := code c in
  ((9 <=? n) && (n <=? 13)) || ((28 <=? n) && (n <=? 32))
  || (n =? 133) || (n =? 160).

(** [Py_UNICODE_ISALNUM] on the code points below 256: letters, decimal
    digits and the characters that are [isdigit] or [isnumeric]
    (superscripts 1-3 and the vulgar fractions). *)
Definition isalnum (c : ascii) : bool :=
  let n := code c in
  ((48 <=? n) && (n <=? 57)) || ((65 <=? n) && (n <=? 90))
  || ((97 <=? n) && (n <=? 122))
  || (n =? 170) || (n =? 178) || (n =? 179) || (n =? 181)
  || (n =? 185) || (n =? 186) || ((188 <=? n) && (n <=? 190))
  || ((192 <=? n) && (n <=? 214)) || ((216 <=? n) && (n <=? 246))
  || ((248 <=? n) && (n <=? 255)).

(** The class [\w]: alphanumeric or underscore. *)
Definition isword (c : ascii) : bool := isalnum c || (code c =? 95).

(** Simple lower-casing of an ASCII letter; the literals matched under
    [re.IGNORECASE] in this program are ASCII letters and [:], and below
    256 only an ASCII letter folds to an ASCII letter. *)
Definition lower (c : ascii) : ascii :=
  let n := code c in
  if (65 <=? n) && (n <=? 90) then ascii_of_nat (n + 32) else c.

(** ** Regular expressions: the fragment of [re] the program uses *)

Module Re.

(** One item of a bracketed character class. *)
Inductive citem : Type :=
| CChar (c : ascii)
| CRange (lo hi : ascii).

Definition in_item (c : ascii) (i : citem) : bool :=
  match i with
  | CChar d => Ascii.eqb c d
  | CRange lo hi => (code lo <=? code c) && (code c <=? code hi)
  end.

Definition in_class (items : list citem) (c : ascii) : bool :=
  existsb (in_item c) items.

(** A pattern.  [Chr p] consumes one character satisfying [p]; [Star g r]
    is [r*] when [g] is [true] (greedy) and [r*?] when it is [false];
    [Group] is a capturing group (the patterns have at most one, group 1);
    [Bol] and [Eol] are [^] and [$] under [re.MULTILINE]. *)
Inductive regex : Type :=
| Eps
| Chr (p : ascii -> bool)
| Seq (r1 r2 : regex)
| Alt (r1 r2 : regex)
| Star (greedy : bool) (r : regex)
| Group (r : regex)
| Bol
| Eol.

(** [r+] and [r+?] *)
Definition Plus (greedy : bool) (r : regex) : regex := Seq r (Star greedy r).

(** [r?] *)
Definition Opt (r : regex) : regex := Alt r Eps.

(** A literal character, [.], [\s], [\w], a bracketed class, and a literal
    character under [re.IGNORECASE]. *)
Definition lit (c : ascii) : regex := Chr (Ascii.eqb c).
Definition dot : regex := Chr (fun c => negb (Ascii.eqb c newline)).
Definition space : regex := Chr isspace.
Definition word : regex := Chr isword.
Definition cls (items : list citem) : regex := Chr (in_class items).
Definition ilit (c : ascii) : regex := Chr (fun d => Ascii.eqb (lower d) (lower c)).

Fixpoint cat (rs : list regex) : regex :=
  match rs with
  | [] => Eps
  | [r] => r
  | r :: rs' => Seq r (cat rs')
  end.

(** A literal string, case-sensitive and case-insensitive. *)
Definition lits (s : string) : regex := cat (map lit (list_ascii_of_string s)).
Definition ilits (s : string) : regex := cat (map ilit (list_ascii_of_string s)).

(** The state of a match attempt: the character before the current
    position ([None] at the start of the string), the text still to read,
    and the text captured by group 1 so far. *)
Record mstate : Type := MState {
  prev : option ascii;
  rest : str;
  grp : option str
}.

(** The loop of a repetition [r*] or [r*?]: [body] matches [r] once, [k]
    is what follows the repetition.  A greedy repetition tries one more
    iteration first and the continuation when that fails; a lazy one tries
    the continuation first.  An iteration that consumes nothing is cut, as
    the engine does, so a counter of [S (length (rest st))] is never
    exhausted. *)
Definition star_loop {A : Type} (greedy : bool)
           (body : mstate -> (mstate -> option A) -> option A)
           (k : mstate -> option A) : nat -> mstate -> option A :=
  fix loop (n : nat) (st : mstate) {struct n} : option A :=
    match n with
    | O => k st
    | S n' =>
        let again (_ : unit) :=
          body st (fun st1 =>
            if length (rest st1) <? length (rest st)
            then loop n' st1 else None) in
        if greedy then
          match again tt with
          | Some x => Some x
          | None => k st
          end
        else
          match k st with
          | Some x => Some x
          | None => again tt
          end
    end.

(** The backtracking matcher, in continuation-passing style: [k] is what
    remains to be matched after [r]; the alternatives are tried in the
    order of the engine, the left branch of [|] first. *)
Fixpoint rmatch {A : Type} (r : regex) (st : mstate)
         (k : mstate -> option A) {struct r} : option A :=
  match r with
  | Eps => k st
  | Chr p =>
      match rest st with
      | c :: t => if p c then k (MState (Some c) t (grp st)) else None
      | [] => None
      end
  | Seq r1 r2 => rmatch r1 st (fun st1 => rmatch r2 st1 k)
  | Alt r1 r2 =>
      match rmatch r1 st k with
      | Some x => Some x
      | None => rmatch r2 st k
      end
  | Star greedy r1 =>
      star_loop greedy (rmatch r1) k (S (length (rest st))) st
  | Group r1 =>
      rmatch r1 st (fun st1 =>
        k (MState (prev st1) (rest st1)
             (Some (firstn (length (rest st) - length (rest st1)) (rest st)))))
  | Bol =>
      match prev st with
      | None => k st
      | Some c => if Ascii.eqb c newline then k st else None
      end
  | Eol =>
      match rest st with
      | [] => k st
      | c :: _ => if Ascii.eqb c newline then k st else None
      end
  end.

(** One attempt at the current position: the number of characters the
    match consumes and the capture of group 1.  [must_advance] is the
    engine's flag of the same name: an empty match is refused. *)
Definition match_at (r : regex) (p : option ascii) (s : str)
           (must_advance : bool) : option (nat * option str) :=
  rmatch r (MState p s None)
    (fun st =>
       let n := length s - length (rest st) in
       if must_advance && (n =? 0) then None else Some (n, grp st)).

(** A replacement template: [r'\1'] or a literal string. *)
Inductive template : Type :=
| TGroup1
| TLit (s : str).

Definition expand (t : template) (g : option str) : str :=
  match t with
  | TGroup1 => match g with Some s => s | None => [] end
  | TLit s => s
  end.

(** The scan of [re.sub]: at each position the leftmost match is replaced
    and the scan resumes after it ([skip] counts the characters of the match
    still to pass over); unmatched characters are copied.  After an empty
    match the same position is tried once more with [must_advance]. *)
Fixpoint sub_from (r : regex) (t : template) (p : option ascii) (s : str)
         (skip : nat) {struct s} : str :=
  match s with
  | [] =>
      match skip with
      | O => match match_at r p [] false with
             | Some (_, g) => expand t g
             | None => []
             end
      | S _ => []
      end
  | c :: s' =>
      match skip with
      | S n => sub_from r t (Some c) s' n
      | O =>
          match match_at r p s false with
          | None => c :: sub_from r t (Some c) s' 0
          | Some (S n, g) => expand t g ++ sub_from r t (Some c) s' n
          | Some (O, g) =>
              expand t g ++
              match match_at r p s true with
              | Some (S n, g') => expand t g' ++ sub_from r t (Some c) s' n
              | _ => c :: sub_from r t (Some c) s' 0
              end
          end
      end
  end.

(** [re.sub(pattern, repl, text)] *)
Definition sub (r : regex) (t : template) (text : str) : str :=
  sub_from r t None text 0.

End Re.

Import Re.

(** ** The patterns of [_clean_text] *)

Module Pat.

(** [r'\*\*(.+?)\*\*'] *)
Definition bold : regex :=
  cat [lits "**"; Group (Plus false dot); lits "**"].
(** [r'\*(.+?)\*'] *)
Definition italic : regex :=
  cat [lits "*"; Group (Plus false dot); lits "*"].
(** [r'~~(.+?)~~'] *)
Definition strike : regex :=
  cat [lits "~~"; Group (Plus false dot); lits "~~"].
(** [r'\^(.+?)'] *)
Definition superscript : regex :=
  cat [lits "^"; Group (Plus false dot)].
(** [r'`(.+?)`'] *)
Definition code_span : regex :=
  cat [lits "`"; Group (Plus false dot); lits "`"].

(** [r'^&gt;.*$'] with [re.MULTILINE] *)
Definition quote : regex :=
  cat [Bol; lits "&gt;"; Star true dot; Eol].
(** [r'^\s*&gt;.*$'] with [re.MULTILINE] *)
Definition quote_indented : regex :=
  cat [Bol; Star true space; lits "&gt;"; Star true dot; Eol].

(** [r'http[s]?://(?:[a-zA-Z]|[0-9]|[$-_@.&+]|[!*\\(\\),]|(?:%[0-9a-fA-F][0-9a-fA-F]))+'] *)
Definition hexdigit : regex :=
  cls [CRange "0" "9"; CRange "a" "f"; CRange "A" "F"].
Definition url : regex :=
  cat [lits "http"; Opt (cls [CChar "s"]); lits "://";
       Plus true
         (Alt (cls [CRange "a" "z"; CRange "A" "Z"])
         (Alt (cls [CRange "0" "9"])
         (Alt (cls [CRange "$" "_"; CChar "@"; CChar "."; CChar "&"; CChar "+"])
         (Alt (cls [CChar "!"; CChar "*"; CChar "\"; CChar "("; CChar "\";
                    CChar ")"; CChar ","])
              (cat [lits "%"; hexdigit; hexdigit])))))].

(** [r'/u/\w+'], [r'u/\w+'], [r'/r/\w+'], [r'r/\w+'] *)
Definition slash_user : regex := cat [lits "/u/"; Plus true word].
Definition user : regex := cat [lits "u/"; Plus true word].
Definition slash_subreddit : regex := cat [lits "/r/"; Plus true word].
Definition subreddit : regex := cat [lits "r/"; Plus true word].

(** [r'\n\s*\n\s*\n'] *)
Definition blank_lines : regex :=
  cat [lit newline; Star true space; lit newline; Star true space; lit newline].
(** [r'[ \t]+'] *)
Definition spaces : regex :=
  Plus true (cls [CChar " "; CChar (ascii_of_nat 9)]).

(** [r'\s*EDIT:.*$'] and [r'\s*Edit:.*$'], both with
    [re.IGNORECASE | re.MULTILINE] *)
Definition edit_upper : regex :=
  cat [Star true space; ilits "EDIT:"; Star true dot; Eol].
Definition edit_title : regex :=
  cat [Star true space; ilits "Edit:"; Star true dot; Eol].

End Pat.

(** ** [str.strip()] *)

Fixpoint lstrip (s : str) : str :=
  match s with
  | c :: t => if isspace c then lstrip t else s
  | [] => []
  end.

Definition rstrip (s : str) : str := rev (lstrip (rev s)).

Definition strip (s : str) : str := rstrip (lstrip s).

(** ** [Conversation] *)

Record Conversation : Type := mkConversation {
  original_text : str;
  reply_text : str;
  score : Z;
  length_ : Z   (* the field [length] *)
}.

(** [Conversation._clean_text] *)
Definition _clean_text (text : str) : str :=
  match text with
  | [] => []
  | _ =>
      (* Remove Reddit formatting *)
      let text := sub Pat.bold TGroup1 text in
      let text := sub Pat.italic TGroup1 text in
      let text := sub Pat.strike TGroup1 text in
      let text := sub Pat.superscript TGroup1 text in
      let text := sub Pat.code_span TGroup1 text in
      (* Remove quotes and references *)
      let text := sub Pat.quote (TLit []) text in
      let text := sub Pat.quote_indented (TLit []) text in
      (* Remove URLs *)
      let text := sub Pat.url (TLit []) text in
      (* Remove Reddit user references *)
      let text := sub Pat.slash_user (TLit []) text in
      let text := sub Pat.user (TLit []) text in
      let text := sub Pat.slash_subreddit (TLit []) text in
      let text := sub Pat.subreddit (TLit []) text in
      (* Clean up whitespace *)
      let text := sub Pat.blank_lines (TLit [newline; newline]) text in
      let text := sub Pat.spaces (TLit (py " ")) text in
      let text := strip text in
      (* Remove edit markers *)
      let text := sub Pat.edit_upper (TLit []) text in
      let text := sub Pat.edit_title (TLit []) text in
      text
  end.

(** [str(n)] for an [int], as an f-string renders it. *)
Definition str_of_int (n : Z) : str := py (NilZero.string_of_int (Z.to_int n)).

(** [Conversation.format_for_character_ai]:
    [f"{user_placeholder}: {original_clean}\n{{{{char}}}}: {reply_clean}\n\n"] *)
Definition format_for_character_ai (self : Conversation)
           (user_placeholder : str) : str :=
  (* Clean up the text *)
  let original_clean := _clean_text (original_text self) in
  let reply_clean := _clean_text (reply_text self) in
  (* Format as dialog *)
  user_placeholder ++ py ": " ++ original_clean ++ [newline]
    ++ py "{{char}}: " ++ reply_clean ++ [newline; newline].

(** ** [CharacterGenerator] *)

(** The limits set by [__init__]. *)
Definition max_definition_length : Z := 32000.
Definition max_single_conversation_length : Z := 800.
Definition min_comment_length : Z := 10.
Definition max_comment_length : Z := 300.

(** *** The records handed over by the Reddit client

    A comment lists its body, its score and [is_root]; [comment.submission]
    and [comment.parent()] are calls into the client, which may raise:
    [None] stands for a raised exception.  The parent of a comment that is
    not a root is a comment, with a [body], or a submission, without. *)
Record Submission : Type := mkSubmission {
  title : str;
  selftext : str
}.

Inductive ParentObject : Type :=
| ParentComment (parent_body : str)
| ParentSubmission (s : Submission).

Record Comment : Type := mkComment {
  body : str;
  comment_score : Z;
  is_root : bool;
  submission : option Submission;
  parent : option ParentObject
}.

Fixpoint str_eqb (a b : str) : bool :=
  match a, b with
  | [], [] => true
  | c :: a', d :: b' => Ascii.eqb c d && str_eqb a' b'
  | _, _ => false
  end.

(** [not s] for a string *)
Definition is_empty (s : str) : bool :=
  match s with [] => true | _ => false end.

(** The text the comment replies to: [None] when the iteration is left by
    [continue] or by an exception of the client. *)
Definition parent_text_of (comment : Comment) : option str :=
  if is_root comment then
    (* Reply to a post *)
    match submission comment with
    | None => None
    | Some parent =>
        let parent_text := title parent in
        if negb (is_empty (selftext parent))
           && (len (selftext parent) <? max_comment_length)%Z
        then Some (parent_text ++ [newline] ++ selftext parent)
        else Some parent_text
    end
  else
    (* Reply to another comment *)
    match parent comment with
    | None => None
    | Some (ParentComment b) => Some b
    | Some (ParentSubmission _) => None
    end.

(** The body of the [for] loop of [_extract_conversations] for one
    comment: the conversation appended, or [None] when none is. *)
Definition extract_one (comment : Comment) : option Conversation :=
  (* Skip deleted/removed comments *)
  if is_empty (body comment)
     || str_eqb (body comment) (py "[deleted]")
     || str_eqb (body comment) (py "[removed]")
  then None
  (* Filter by length *)
  else if (len (body comment) <? min_comment_length)%Z
          || (len (body comment) >? max_comment_length)%Z
  then None
  else
    (* Get what they were replying to *)
    match parent_text_of comment with
    | None => None
    | Some parent_text =>
        (* Skip if parent is too long or short *)
        if is_empty parent_text
           || (len parent_text <? min_comment_length)%Z
           || (len parent_text >? max_comment_length)%Z
        then None
        else
          (* Create conversation *)
          let conv := mkConversation parent_text (body comment)
                        (Z.max (comment_score comment) 0)
                        (len parent_text + len (body comment)) in
          (* Check if the formatted conversation would be too long *)
          let formatted_length :=
            len (format_for_character_ai conv (py "{{random_user_1}}")) in
          if (formatted_length <=? max_single_conversation_length)%Z
          then Some conv
          else None
    end.

Fixpoint extract_loop (comments : list Comment)
         (conversations : list Conversation) : list Conversation :=
  match comments with
  | [] => conversations
  | comment :: more =>
      match extract_one comment with
      | Some conv => extract_loop more (conversations ++ [conv])
      | None => extract_loop more conversations
      end
  end.

(** [CharacterGenerator._extract_conversations]; the argument is the result
    of [list(user.comments.new(limit=limit))], [None] when it raised. *)
Definition _extract_conversations (comments : option (list Comment))
  : list Conversation :=
  match comments with
  | None => []
  | Some comments => extract_loop comments []
  end.

(** *** [list.sort(key=..., reverse=True)]

    The built-in sort is stable; with [reverse=True] the interpreter
    reverses the list, sorts it in ascending order of the keys, stably, and
    reverses the result.  The ascending stable sort is given here as an
    insertion sort: an element goes in front of the first element whose key
    is not smaller. *)
Section ListSort.
Variables (A K : Type) (key : A -> K) (lt : K -> K -> bool).

Fixpoint insert (x : A) (l : list A) : list A :=
  match l with
  | [] => [x]
  | y :: l' => if lt (key y) (key x) then y :: insert x l' else x :: l
  end.

Fixpoint sort_ascending (l : list A) : list A :=
  match l with
  | [] => []
  | x :: l' => insert x (sort_ascending l')
  end.

Definition list_sort (reverse : bool) (l : list A) : list A :=
  if reverse then rev (sort_ascending (rev l)) else sort_ascending l.

(** The order of two adjacent elements after the ascending sort, and
    after the reversed sort. *)
Definition ascending (a b : A) : Prop := lt (key b) (key a) = false.
Definition descending (a b : A) : Prop := lt (key a) (key b) = false.

(** The elements of one key, for an equality [eqk] of keys. *)
Definition has_key (eqk : K -> K -> bool) (k : K) (x : A) : bool :=
  eqk (key x) k.
End ListSort.

(** The order of Python on pairs of integers. *)
Definition tuple_lt (a b : Z * Z) : bool :=
  ((fst a <? fst b) || ((fst a =? fst b) && (snd a <? snd b)))%Z.

(** [lambda x: (x.score, -x.length)] *)
Definition sort_key (x : Conversation) : Z * Z := (score x, (- length_ x)%Z).

(** [conversations.sort(key=lambda x: (x.score, -x.length), reverse=True)] *)
Definition sort_conversations (conversations : list Conversation)
  : list Conversation :=
  list_sort sort_key tuple_lt true conversations.

(** *** [_build_definition] *)

(** [f"{{{{random_user_{user_counter}}}}}"] *)
Definition placeholder (user_counter : Z) : str :=
  py "{{random_user_" ++ str_of_int user_counter ++ py "}}".

(** The intro line of [_build_definition]. *)
Definition intro_of (username : str) : str :=
  py "This character is based on the Reddit user u/" ++ username
    ++ py ". Here are examples of how they typically respond:"
    ++ [newline; newline].

(** The local variables of [_build_definition]. *)
Record pack_state : Type := PackState {
  definition_parts : list str;
  current_length : Z;
  user_counter : Z
}.

(** The [for] loop: [break] returns the state as it stands. *)
Fixpoint pack_loop (conversations : list Conversation) (st : pack_state)
  : pack_state :=
  match conversations with
  | [] => st
  | conv :: more =>
      (* Use different user placeholders for variety *)
      let user_placeholder := placeholder (user_counter st) in
      let formatted_conv := format_for_character_ai conv user_placeholder in
      (* Check if adding this conversation would exceed the limit *)
      if (current_length st + len formatted_conv >? max_definition_length)%Z
      then st
      else
        pack_loop more
          (PackState (definition_parts st ++ [formatted_conv])
                     (current_length st + len formatted_conv)
                     (* Cycle through user placeholders (1-5 for variety) *)
                     ((user_counter st) mod 5 + 1)%Z)
  end.

(** The state before the loop: the intro is appended and counted. *)
Definition pack_init (username : str) : pack_state :=
  let intro := intro_of username in
  PackState ([] ++ [intro]) (0 + len intro) 1.

(** The state after the loop. *)
Definition pack (conversations : list Conversation) (username : str)
  : pack_state :=
  pack_loop conversations (pack_init username).

(** [CharacterGenerator._build_definition]: ["".join(definition_parts)] *)
Definition _build_definition (conversations : list Conversation)
           (username : str) : str :=
  concat (definition_parts (pack conversations username)).

(** The conversation blocks of the artifact: the parts after the intro. *)
Definition blocks (conversations : list Conversation) (username : str)
  : list str :=
  tl (definition_parts (pack conversations username)).

(** [not l] for a list *)
Definition is_empty_list {A : Type} (l : list A) : bool :=
  match l with [] => true | _ => false end.

(** [CharacterGenerator.generate_character_definition], from the comments
    the client returned. *)
Definition generate_character_definition (username : str)
           (comments : option (list Comment)) : str :=
  let conversations := _extract_conversations comments in
  if is_empty_list conversations then
    py "No suitable conversations found for u/" ++ username
      ++ py ". The user might have no public activity or all comments are too short/long."
  else
    (* Sort by score (engagement) and length for better quality *)
    let conversations := sort_conversations conversations in
    _build_definition conversations username.

(** * Definitions for the statements *)

(** ** The selected order *)

(** Equality of two keys. *)
Definition tuple_eqb (a b : Z * Z) : bool :=
  ((fst a =? fst b) && (snd a =? snd b))%Z.

(** The order the specification states: higher score first and, for equal
    scores, the longer conversation first. *)
Definition longer_first (a b : Conversation) : Prop :=
  (score a > score b \/ (score a = score b /\ length_ a >= length_ b))%Z.

(** The order of the code: higher score first and, for equal scores, the
    shorter conversation first. *)
Definition shorter_first (a b : Conversation) : Prop :=
  (score a > score b \/ (score a = score b /\ length_ a <= length_ b))%Z.

(** The conversations of one score and one length. *)
Definition same_rank (s n : Z) (x : Conversation) : bool :=
  ((score x =? s) && (length_ x =? n))%Z.

(** ** The packing loop *)

(** The step of the counter: [(user_counter % 5) + 1]; for the positive
    modulus 5, [%] of Python is [mod] on [Z]. *)
Definition next_counter (c : Z) : Z := (c mod 5 + 1)%Z.

(** The blocks the loop appends, from a running total and a counter. *)
Fixpoint emitted (conversations : list Conversation) (total counter : Z)
  : list str :=
  match conversations with
  | [] => []
  | conv :: more =>
      let formatted_conv :=
        format_for_character_ai conv (placeholder counter) in
      if (total + len formatted_conv >? max_definition_length)%Z then []
      else formatted_conv
             :: emitted more (total + len formatted_conv) (next_counter counter)
  end.

(** ** The matcher: what a successful attempt consumed *)

(** [steps r st st']: [r] can take the matcher from [st] to [st']. *)
Inductive steps : regex -> mstate -> mstate -> Prop :=
| steps_eps st : steps Eps st st
| steps_chr p c t st :
    rest st = c :: t -> p c = true ->
    steps (Chr p) st (MState (Some c) t (grp st))
| steps_seq r1 r2 st st1 st2 :
    steps r1 st st1 -> steps r2 st1 st2 -> steps (Seq r1 r2) st st2
| steps_alt_l r1 r2 st st1 : steps r1 st st1 -> steps (Alt r1 r2) st st1
| steps_alt_r r1 r2 st st1 : steps r2 st st1 -> steps (Alt r1 r2) st st1
| steps_star_stop g r st : steps (Star g r) st st
| steps_star_more g r st st1 st2 :
    steps r st st1 -> length (rest st1) < length (rest st) ->
    steps (Star g r) st1 st2 -> steps (Star g r) st st2
| steps_group r st st1 :
    steps r st st1 ->
    steps (Group r) st
      (MState (prev st1) (rest st1)
         (Some (firstn (length (rest st) - length (rest st1)) (rest st))))
| steps_bol st :
    prev st = None \/ prev st = Some newline -> steps Bol st st
| steps_eol st :
    rest st = [] \/ (exists t, rest st = newline :: t) -> steps Eol st st.

(** The least number of characters a match of [r] consumes. *)
Fixpoint minlen (r : regex) : nat :=
  match r with
  | Eps => 0
  | Chr _ => 1
  | Seq r1 r2 => minlen r1 + minlen r2
  | Alt r1 r2 => Nat.min (minlen r1) (minlen r2)
  | Star _ _ => 0
  | Group r1 => minlen r1
  | Bol => 0
  | Eol => 0
  end.

(** The capture of group 1 lies within the text consumed so far, counted
    from a text [s] the attempt started on. *)
Definition captured_within (s : str) (st : mstate) : Prop :=
  length (rest st) <= length s
  /\ forall g, grp st = Some g -> length g + length (rest st) <= length s.

(** A replacement no longer than any match it replaces. *)
Definition shrinking (r : regex) (t : template) : Prop :=
  match t with
  | TGroup1 => True
  | TLit l => length l <= minlen r
  end.

(** ** Plain text *)

(** The characters the patterns of [_clean_text] react to, besides
    whitespace: [*], [~], [^], the backquote, [&], [/] and [:]. *)
Definition markup_char (c : ascii) : bool :=
  existsb (Ascii.eqb c) (py "*~^`&/:").

(** A character of a word: neither whitespace nor markup. *)
Definition word_char (c : ascii) : bool :=
  negb (isspace c) && negb (markup_char c).

(** Words of such characters separated by single spaces; [after_space]
    tells that a word has to start here. *)
Fixpoint plain_from (after_space : bool) (s : str) : bool :=
  match s with
  | [] => negb after_space
  | c :: t =>
      if Ascii.eqb c " " then negb after_space && plain_from true t
      else word_char c && plain_from false t
  end.

(** Plain text: the empty string, or words separated by single spaces. *)
Definition plain (s : str) : bool :=
  match s with
  | [] => true
  | _ => plain_from true s
  end.

(** All the characters. *)
Definition all_ascii : list ascii := map ascii_of_nat (seq 0 256).

(** [p] holds of every character. *)
Definition for_all_ascii (p : ascii -> bool) : bool := forallb p all_ascii.

(** Every match of [r] consumes a character satisfying [q]. *)
Fixpoint needs (q : ascii -> bool) (r : regex) : bool :=
  match r with
  | Chr p => for_all_ascii (fun c => implb (p c) (q c))
  | Seq r1 r2 => needs q r1 || needs q r2
  | Alt r1 r2 => needs q r1 && needs q r2
  | Group r1 => needs q r1
  | Eps | Star _ _ | Bol | Eol => false
  end.

(** The characters that plain text does not have. *)
Definition special (c : ascii) : bool :=
  negb (word_char c || Ascii.eqb c " ").

(** The class of [r'[ \t]+']. *)
Definition blank (c : ascii) : bool :=
  in_class [CChar " "; CChar (ascii_of_nat 9)] c.

(** ** Sample data *)

(** Two conversations of one score, of lengths 21 and 38. *)
Definition conv_a : Conversation :=
  mkConversation (py "short post") (py "short reply") 1 21.
Definition conv_b : Conversation :=
  mkConversation (py "a longer post title") (py "a longer reply text") 1 38.

(** A conversation of two texts of 300 characters: 632 characters
    rendered. *)
Definition conv_long : Conversation :=
  mkConversation (repeat "a"%char 300) (repeat "b"%char 300) 7 600.

(** A root comment on a post with a short self-text, and a reply to a
    comment. *)
Definition comment_root : Comment :=
  mkComment (py "I would not do *that* again") 12 true
            (Some (mkSubmission (py "What do you think of this?")
                                (py "Asking for a friend.")))
            None.
Definition comment_reply : Comment :=
  mkComment (py "Thanks, see r/rocq for more") (-2) false None
            (Some (ParentComment (py "Where can I read about it?"))).

(** A root comment of five characters on a post with a usable title. *)
Definition comment_short : Comment :=
  mkComment (py "short") 3 true
            (Some (mkSubmission (py "What do you think of this?") []))
            None.

(** ** Further definitions *)

(** The conversations one comment contributes: one or none. *)
Definition conversations_of (comment : Comment) : list Conversation :=
  match extract_one comment with
  | Some conv => [conv]
  | None => []
  end.

(** The filters of the loop body on the raw lengths. *)
Definition within_comment_limits (s : str) : Prop :=
  (min_comment_length <= len s <= max_comment_length)%Z.

(** A root comment on a post whose title and self-text, both usable alone,
    are too long together. *)
Definition comment_long_post : Comment :=
  mkComment (py "I would not do *that* again") 12 true
            (Some (mkSubmission (repeat "t"%char 200) (repeat "s"%char 150)))
            None.

(** A reply whose parent the client fails to deliver. *)
Definition comment_orphan : Comment :=
  mkComment (py "Nobody will ever read this") 4 false None None.

(** The text returned when no conversation was found. *)
Definition no_conversations_message (username : str) : str :=
  py "No suitable conversations found for u/" ++ username
    ++ py ". The user might have no public activity or all comments are too short/long.".

(** The capture of group 1 is made of characters of the text [s] the
    attempt started on, and the text left is an end of [s]. *)
Definition captured_from (s : str) (st : mstate) : Prop :=
  (exists w, s = w ++ rest st)
  /\ forall g, grp st = Some g -> incl g s.

(** The characters a template can insert by itself. *)
Definition template_chars (t : template) : str :=
  match t with
  | TGroup1 => []
  | TLit l => l
  end.

Definition tab : ascii := ascii_of_nat 9.

(** ** Text without markup *)



(** A greedy repetition of one character class [p], followed by [k]: the
    longest run first, then shorter ones. *)
Fixpoint greedy {A : Type} (p : ascii -> bool) (k : mstate -> option A)
         (pv : option ascii) (s : str) (g : option str) : option A :=
  match s with
  | c :: t =>
      if p c then
        match greedy p k (Some c) t g with
        | Some x => Some x
        | None => k (MState pv s g)
        end
      else k (MState pv s g)
  | [] => k (MState pv [] g)
  end.







(** * Properties *)

(** ** Lengths *)

Lemma len_app (a b : str) : len (a ++ b) = (len a + len b)%Z.
Proof. unfold len. rewrite length_app. lia. Qed.

Lemma len_nonneg (a : str) : (0 <= len a)%Z.
Proof. unfold len. lia. Qed.

Lemma len_cons (c : ascii) (a : str) : len (c :: a) = (1 + len a)%Z.
Proof. unfold len. simpl length. lia. Qed.

(** ** The sort: [list.sort] with a key *)

Section ListSortFacts.
Variables (A K : Type) (key : A -> K) (lt : K -> K -> bool).

Hypothesis lt_asym : forall a b, lt a b = true -> lt b a = false.

Lemma insert_perm (x : A) (l : list A) :
  Permutation (x :: l) (insert key lt x l).
Proof.
  induction l as [|y l IH]; simpl.
  - apply Permutation_refl.
  - destruct (lt (key y) (key x)).
    + eapply Permutation_trans; [apply perm_swap|].
      apply perm_skip, IH.
    + apply Permutation_refl.
Qed.

Lemma sort_ascending_perm (l : list A) :
  Permutation l (sort_ascending key lt l).
Proof.
  induction l as [|x l IH]; simpl.
  - apply perm_nil.
  - eapply Permutation_trans; [apply perm_skip, IH|apply insert_perm].
Qed.

Lemma list_sort_perm (reverse : bool) (l : list A) :
  Permutation l (list_sort key lt reverse l).
Proof.
  unfold list_sort. destruct reverse.
  - eapply Permutation_trans; [apply Permutation_rev|].
    eapply Permutation_trans; [apply sort_ascending_perm|].
    apply Permutation_rev.
  - apply sort_ascending_perm.
Qed.

Lemma insert_hd (R : A -> A -> Prop) (y x : A) (l : list A) :
  R y x -> HdRel R y l -> HdRel R y (insert key lt x l).
Proof.
  intros Hyx Hl. destruct l as [|z l]; simpl.
  - constructor; exact Hyx.
  - destruct (lt (key z) (key x)).
    + constructor. inversion Hl; assumption.
    + constructor; exact Hyx.
Qed.

Lemma insert_sorted (x : A) (l : list A) :
  Sorted (ascending key lt) l -> Sorted (ascending key lt) (insert key lt x l).
Proof.
  induction 1 as [|y l Hs IH Hhd]; simpl.
  - repeat constructor.
  - destruct (lt (key y) (key x)) eqn:E.
    + constructor; [exact IH|].
      apply insert_hd; [|exact Hhd].
      unfold ascending. apply lt_asym, E.
    + constructor; [constructor; assumption|].
      constructor. exact E.
Qed.

Lemma sort_ascending_sorted (l : list A) :
  Sorted (ascending key lt) (sort_ascending key lt l).
Proof.
  induction l as [|x l IH]; simpl.
  - constructor.
  - apply insert_sorted, IH.
Qed.

(** [Sorted R l] says that [R] holds of every two adjacent elements. *)
Lemma Sorted_adjacent (R : A -> A -> Prop) (l : list A) :
  Sorted R l <->
  (forall l1 a b l2, l = l1 ++ a :: b :: l2 -> R a b).
Proof.
  split.
  - induction 1 as [|x l Hs IH Hhd]; intros l1 a b l2 E.
    + destruct l1; discriminate.
    + destruct l1 as [|y l1]; simpl in E; injection E as -> ->.
      * inversion Hhd; assumption.
      * eapply IH; reflexivity.
  - induction l as [|x l IH]; intros H.
    + constructor.
    + constructor.
      * apply IH. intros l1 a b l2 ->. apply (H (x :: l1) a b l2). reflexivity.
      * destruct l as [|y l]; constructor.
        apply (H [] x y l). reflexivity.
Qed.

Lemma Sorted_rev (R : A -> A -> Prop) (l : list A) :
  Sorted R l -> Sorted (fun a b => R b a) (rev l).
Proof.
  rewrite !Sorted_adjacent. intros H l1 a b l2 E.
  apply (H (rev l2) b a (rev l1)).
  rewrite <- (rev_involutive l), E, rev_app_distr. simpl.
  rewrite <- !app_assoc. reflexivity.
Qed.

Lemma list_sort_reverse_sorted (l : list A) :
  Sorted (descending key lt) (list_sort key lt true l).
Proof.
  unfold list_sort. apply (Sorted_rev (R := ascending key lt)).
  apply sort_ascending_sorted.
Qed.

(** Stability: the elements of one key keep their order. *)
Variable eqk : K -> K -> bool.
Hypothesis lt_irrefl : forall a b, eqk a b = true -> lt a b = false.
Hypothesis eqk_trans :
  forall a b c, eqk a c = true -> eqk b c = true -> eqk a b = true.

Lemma insert_filter (k : K) (x : A) (l : list A) :
  filter (has_key key eqk k) (insert key lt x l) = filter (has_key key eqk k) (x :: l).
Proof.
  induction l as [|y l IH]; simpl.
  - reflexivity.
  - destruct (lt (key y) (key x)) eqn:E; [|reflexivity].
    simpl. rewrite IH. simpl. unfold has_key.
    destruct (eqk (key y) k) eqn:Ey, (eqk (key x) k) eqn:Ex; try reflexivity.
    rewrite (lt_irrefl (eqk_trans Ey Ex)) in E. discriminate.
Qed.

Lemma sort_ascending_filter (k : K) (l : list A) :
  filter (has_key key eqk k) (sort_ascending key lt l) = filter (has_key key eqk k) l.
Proof.
  induction l as [|x l IH]; simpl; [reflexivity|].
  rewrite insert_filter. simpl. rewrite IH. reflexivity.
Qed.

Lemma filter_rev (p : A -> bool) (l : list A) :
  filter p (rev l) = rev (filter p l).
Proof.
  induction l as [|x l IH]; simpl; [reflexivity|].
  rewrite filter_app, IH. simpl. destruct (p x); simpl.
  - reflexivity.
  - apply app_nil_r.
Qed.

Lemma list_sort_stable (reverse : bool) (k : K) (l : list A) :
  filter (has_key key eqk k) (list_sort key lt reverse l) = filter (has_key key eqk k) l.
Proof.
  unfold list_sort. destruct reverse.
  - rewrite filter_rev, sort_ascending_filter, filter_rev.
    apply rev_involutive.
  - apply sort_ascending_filter.
Qed.
End ListSortFacts.

(** ** The order of the selected conversations *)

Lemma tuple_lt_asym (a b : Z * Z) : tuple_lt a b = true -> tuple_lt b a = false.
Proof. unfold tuple_lt. destruct a, b; simpl. lia. Qed.

Lemma tuple_lt_irrefl (a b : Z * Z) :
  tuple_eqb a b = true -> tuple_lt a b = false.
Proof. unfold tuple_lt, tuple_eqb. destruct a, b; simpl. lia. Qed.

Lemma tuple_eqb_trans (a b c : Z * Z) :
  tuple_eqb a c = true -> tuple_eqb b c = true -> tuple_eqb a b = true.
Proof. unfold tuple_eqb. destruct a, b, c; simpl. lia. Qed.

Lemma descending_shorter_first (a b : Conversation) :
  descending sort_key tuple_lt a b -> shorter_first a b.
Proof.
  unfold descending, shorter_first, tuple_lt, sort_key. simpl. lia.
Qed.

Lemma Sorted_impl (A : Type) (R S : A -> A -> Prop) (l : list A) :
  (forall a b, R a b -> S a b) -> Sorted R l -> Sorted S l.
Proof.
  intros H. induction 1 as [|x l Hs IH Hhd]; constructor; [exact IH|].
  destruct Hhd; constructor; auto.
Qed.

Lemma same_rank_has_key (s n : Z) (l : list Conversation) :
  filter (same_rank s n) l
  = filter (has_key sort_key tuple_eqb (s, (- n)%Z)) l.
Proof.
  apply filter_ext. intros x. unfold same_rank, has_key, tuple_eqb, sort_key.
  simpl. destruct (score x =? s)%Z; simpl; [|reflexivity].
  destruct (length_ x =? n)%Z eqn:E, (- length_ x =? - n)%Z eqn:F;
    try reflexivity; lia.
Qed.

Example sort_conversations_ties :
  sort_conversations [conv_b; conv_a] = [conv_a; conv_b].
Proof. reflexivity. Qed.

(** C1, as stated, fails: two conversations of score 1 and lengths 38 and
    21 are selected shorter first, so the adjacent pair has neither a higher
    score first nor, at equal score, the longer conversation first. *)
Lemma sort_conversations_not_longer_first :
  ~ Sorted longer_first (sort_conversations [conv_b; conv_a]).
Proof.
  rewrite sort_conversations_ties. intros H.
  inversion H as [|? ? _ Hhd]; subst.
  inversion Hhd as [|? ? Hab]; subst.
  unfold longer_first, conv_a, conv_b in Hab; simpl in Hab. lia.
Qed.

(** C1, amended: the sort of [generate_character_definition] rearranges
    the conversations (a permutation) so that of every two adjacent ones
    (a, b) either a.score > b.score, or a.score = b.score and
    a.length <= b.length (the shorter first); it is stable:
    conversations of one score and one length keep their input order. *)
Theorem sort_conversations_shorter_first (conversations : list Conversation) :
  Permutation conversations (sort_conversations conversations)
  /\ Sorted shorter_first (sort_conversations conversations)
  /\ (forall s n : Z,
        filter (same_rank s n) (sort_conversations conversations)
        = filter (same_rank s n) conversations).
Proof.
  unfold sort_conversations. split; [apply list_sort_perm|split].
  - apply Sorted_impl with (R := descending sort_key tuple_lt).
    + apply descending_shorter_first.
    + apply list_sort_reverse_sorted, tuple_lt_asym.
  - intros s n. rewrite !same_rank_has_key.
    apply list_sort_stable.
    + apply tuple_lt_irrefl.
    + apply tuple_eqb_trans.
Qed.

(** ** The placeholders and the rendered form *)

Lemma placeholder_len (c : Z) :
  (1 <= c <= 5)%Z -> len (placeholder c) = 17%Z.
Proof.
  intros H.
  assert (E : c = 1%Z \/ c = 2%Z \/ c = 3%Z \/ c = 4%Z \/ c = 5%Z) by lia.
  destruct E as [-> | [-> | [-> | [-> | ->]]]]; reflexivity.
Qed.

Lemma format_len (conv : Conversation) (user_placeholder : str) :
  len (format_for_character_ai conv user_placeholder)
  = (len user_placeholder + len (_clean_text (original_text conv))
     + len (_clean_text (reply_text conv)) + 15)%Z.
Proof.
  unfold format_for_character_ai. rewrite !len_app.
  change (len (py ": ")) with 2%Z.
  change (len [newline]) with 1%Z.
  change (len (py "{{char}}: ")) with 10%Z.
  change (len [newline; newline]) with 2%Z.
  lia.
Qed.

Lemma format_len_placeholder (conv : Conversation) (c d : Z) :
  (1 <= c <= 5)%Z -> (1 <= d <= 5)%Z ->
  len (format_for_character_ai conv (placeholder c))
  = len (format_for_character_ai conv (placeholder d)).
Proof.
  intros Hc Hd. rewrite !format_len, !placeholder_len by assumption.
  reflexivity.
Qed.

(** ** The packing loop *)

Lemma pack_loop_parts (conversations : list Conversation) (st : pack_state) :
  definition_parts (pack_loop conversations st)
  = definition_parts st
      ++ emitted conversations (current_length st) (user_counter st).
Proof.
  revert st. induction conversations as [|conv more IH]; intros st; simpl.
  - symmetry. apply app_nil_r.
  - destruct (_ >? _)%Z.
    + symmetry. apply app_nil_r.
    + rewrite IH. simpl. rewrite <- app_assoc. reflexivity.
Qed.

Lemma blocks_emitted (conversations : list Conversation) (username : str) :
  blocks conversations username
  = emitted conversations (len (intro_of username)) 1.
Proof.
  unfold blocks, pack. rewrite pack_loop_parts. reflexivity.
Qed.

Lemma next_counter_range (c : Z) : (1 <= next_counter c <= 5)%Z.
Proof.
  unfold next_counter. pose proof (Z.mod_pos_bound c 5). lia.
Qed.

Lemma iter_next_counter (n : nat) :
  Nat.iter n next_counter 1%Z = (Z.of_nat n mod 5 + 1)%Z.
Proof.
  induction n as [|n IH].
  - reflexivity.
  - simpl Nat.iter. rewrite IH. unfold next_counter.
    rewrite Nat2Z.inj_succ, <- Z.add_1_r.
    rewrite Z.add_mod_idemp_l by lia. reflexivity.
Qed.

Lemma emitted_nth (conversations : list Conversation) (total counter : Z)
      (n : nat) (block : str) :
  nth_error (emitted conversations total counter) n = Some block ->
  exists conv,
    nth_error conversations n = Some conv
    /\ block = format_for_character_ai conv
                 (placeholder (Nat.iter n next_counter counter)).
Proof.
  revert total counter n.
  induction conversations as [|conv more IH]; intros total counter n H;
    simpl in H.
  - destruct n; discriminate.
  - destruct (_ >? _)%Z; [destruct n; discriminate|].
    destruct n as [|n]; simpl in H.
    + injection H as <-. exists conv. split; reflexivity.
    + apply IH in H. destruct H as (c & Hc & ->).
      exists c. split; [exact Hc|].
      rewrite Nat.iter_succ_r. reflexivity.
Qed.

Lemma iter_next_counter_range (n : nat) (c : Z) :
  (1 <= c <= 5)%Z -> (1 <= Nat.iter n next_counter c <= 5)%Z.
Proof.
  intros H. destruct n; simpl; [exact H|apply next_counter_range].
Qed.

(** The loop keeps the running total equal to the length of the parts and
    never lets it pass the limit. *)
Lemma pack_loop_total (conversations : list Conversation) (st : pack_state) :
  current_length st = len (concat (definition_parts st)) ->
  current_length (pack_loop conversations st)
  = len (concat (definition_parts (pack_loop conversations st))).
Proof.
  revert st. induction conversations as [|conv more IH]; intros st H; simpl.
  - exact H.
  - destruct (_ >? _)%Z; [exact H|].
    apply IH. simpl. rewrite concat_app, len_app. simpl concat.
    rewrite app_nil_r. rewrite H. reflexivity.
Qed.

Lemma pack_loop_bound (conversations : list Conversation) (st : pack_state) :
  (current_length st <= max_definition_length)%Z ->
  (current_length (pack_loop conversations st) <= max_definition_length)%Z.
Proof.
  revert st. induction conversations as [|conv more IH]; intros st H; simpl.
  - exact H.
  - destruct (_ >? _)%Z eqn:E; [exact H|].
    apply IH. simpl. lia.
Qed.

Lemma intro_len (username : str) :
  len (intro_of username) = (97 + len username)%Z.
Proof.
  unfold intro_of. rewrite !len_app.
  change (len (py "This character is based on the Reddit user u/")) with 45%Z.
  change (len (py ". Here are examples of how they typically respond:"))
    with 50%Z.
  change (len [newline; newline]) with 2%Z. lia.
Qed.

Lemma build_definition_len (conversations : list Conversation)
      (username : str) :
  len (_build_definition conversations username)
  = current_length (pack conversations username).
Proof.
  unfold _build_definition, pack. symmetry. apply pack_loop_total.
  simpl. rewrite app_nil_r. reflexivity.
Qed.

(** C2, as stated, fails: the intro line is appended before any check, so
    with no conversation and a username of 31904 characters ([a] repeated) the artifact
    is the intro line alone, of 32001 characters. *)
Lemma build_definition_over_budget :
  (len (_build_definition [] (repeat "a"%char (Z.to_nat 31904)))
   > max_definition_length)%Z.
Proof.
  rewrite build_definition_len. unfold pack, pack_init.
  cbn [pack_loop current_length]. rewrite intro_len.
  unfold len. rewrite repeat_length. vm_compute. reflexivity.
Qed.

(** C2, amended: for every sequence of conversations and every username
    of at most 31903 characters (so that the intro line itself is within
    the limit), the artifact of [_build_definition] has at most
    [max_definition_length] = 32000 characters. *)
Theorem build_definition_within_budget
        (conversations : list Conversation) (username : str) :
  (len username <= 31903)%Z ->
  (len (_build_definition conversations username)
   <= max_definition_length)%Z.
Proof.
  intros H. rewrite build_definition_len. unfold pack.
  apply pack_loop_bound. simpl. rewrite intro_len.
  unfold max_definition_length. lia.
Qed.

Lemma build_definition_within_budget_witness :
  (len (py "spez") <= 31903)%Z
  /\ (len (_build_definition [conv_a; conv_b] (py "spez"))
      <= max_definition_length)%Z.
Proof.
  split.
  - vm_compute. discriminate.
  - apply (build_definition_within_budget [conv_a; conv_b] (py "spez")).
    vm_compute. discriminate.
Defined.

(** The loop stops at the first conversation that does not fit. *)
Lemma pack_loop_stop (pre : list Conversation) (c : Conversation)
      (post : list Conversation) (st : pack_state) :
  (current_length (pack_loop pre st)
   + len (format_for_character_ai c
            (placeholder (user_counter (pack_loop pre st))))
   > max_definition_length)%Z ->
  pack_loop (pre ++ c :: post) st = pack_loop pre st.
Proof.
  revert st. induction pre as [|a pre IH]; intros st H; simpl in *.
  - destruct (_ >? _)%Z eqn:E; [reflexivity|lia].
  - destruct (_ >? _)%Z eqn:E; [reflexivity|].
    apply IH, H.
Qed.

(** C4: once the loop of [_build_definition] meets a conversation [c]
    whose rendered text would take the running total over
    [max_definition_length], it stops: whatever follows [c], the state of
    the loop, and so the artifact, is the one reached before [c]; neither
    [c] nor any later conversation is appended. *)
Theorem build_definition_stops (pre : list Conversation) (c : Conversation)
        (post : list Conversation) (username : str) :
  (current_length (pack pre username)
   + len (format_for_character_ai c
            (placeholder (user_counter (pack pre username))))
   > max_definition_length)%Z ->
  pack (pre ++ c :: post) username = pack pre username
  /\ _build_definition (pre ++ c :: post) username
     = _build_definition pre username.
Proof.
  intros H. unfold _build_definition.
  assert (E : pack (pre ++ c :: post) username = pack pre username)
    by (apply pack_loop_stop, H).
  rewrite E. split; reflexivity.
Qed.

Lemma build_definition_stops_witness :
  (current_length (pack (repeat conv_long 50) (py "spez"))
   + len (format_for_character_ai conv_long
            (placeholder (user_counter (pack (repeat conv_long 50) (py "spez")))))
   > max_definition_length)%Z
  /\ (current_length (pack (repeat conv_long 50) (py "spez"))
      + len (format_for_character_ai conv_a (placeholder 1))
      <= max_definition_length)%Z
  /\ _build_definition (repeat conv_long 50 ++ conv_long :: [conv_a]) (py "spez")
     = _build_definition (repeat conv_long 50) (py "spez").
Proof.
  split; [vm_compute; reflexivity|].
  split; [vm_compute; discriminate|].
  apply (build_definition_stops (repeat conv_long 50) conv_long [conv_a]
           (py "spez")).
  vm_compute. reflexivity.
Defined.



(** The counter after the loop: advanced once per appended block. *)
Lemma emitted_counter (conversations : list Conversation) (st : pack_state) :
  user_counter (pack_loop conversations st)
  = Nat.iter (length (emitted conversations (current_length st)
                        (user_counter st)))
             next_counter (user_counter st).
Proof.
  revert st. induction conversations as [|conv more IH]; intros st; simpl.
  - reflexivity.
  - destruct (_ >? _)%Z; [reflexivity|].
    rewrite IH. simpl length. rewrite Nat.iter_succ_r. reflexivity.
Qed.

(** C9: the five placeholders [{{random_user_1}}] .. [{{random_user_5}}]
    have one length, 17, so a conversation rendered with any two of them
    gives texts of equal length. *)
Theorem rendered_length_independent_of_placeholder
        (conv : Conversation) (i j : Z) :
  (1 <= i <= 5)%Z -> (1 <= j <= 5)%Z ->
  len (placeholder i) = len (placeholder j)
  /\ len (format_for_character_ai conv (placeholder i))
     = len (format_for_character_ai conv (placeholder j)).
Proof.
  intros Hi Hj. split.
  - rewrite !placeholder_len by assumption. reflexivity.
  - apply format_len_placeholder; assumption.
Qed.

Lemma rendered_length_independent_of_placeholder_witness :
  len (placeholder 1) = len (placeholder 4)
  /\ len (format_for_character_ai conv_b (placeholder 1))
     = len (format_for_character_ai conv_b (placeholder 4)).
Proof.
  apply (rendered_length_independent_of_placeholder conv_b (i := 1) (j := 4));
    lia.
Defined.

(** ** The builder *)

Lemma extract_one_formatted (comment : Comment) (conv : Conversation) :
  extract_one comment = Some conv ->
  (len (format_for_character_ai conv (placeholder 1))
   <= max_single_conversation_length)%Z.
Proof.
  unfold extract_one.
  destruct (_ || _ || _); [discriminate|].
  destruct (_ || _); [discriminate|].
  destruct (parent_text_of comment) as [parent_text|]; [|discriminate].
  destruct (_ || _ || _); [discriminate|].
  destruct (_ <=? _)%Z eqn:E; [|discriminate].
  intros H. injection H as <-.
  change (placeholder 1) with (py "{{random_user_1}}"). lia.
Qed.

Lemma extract_loop_In (comments : list Comment)
      (conversations : list Conversation) (conv : Conversation) :
  In conv (extract_loop comments conversations) ->
  In conv conversations \/ exists comment, extract_one comment = Some conv.
Proof.
  revert conversations.
  induction comments as [|comment more IH]; intros conversations H; simpl in H.
  - left. exact H.
  - destruct (extract_one comment) as [c|] eqn:E.
    + apply IH in H. destruct H as [H|H]; [|right; exact H].
      apply in_app_or in H. destruct H as [H|[<-|[]]].
      * left. exact H.
      * right. exists comment. exact E.
    + apply IH, H.
Qed.

Lemma extract_conversations_formatted (comments : option (list Comment))
      (conv : Conversation) :
  In conv (_extract_conversations comments) ->
  (len (format_for_character_ai conv (placeholder 1))
   <= max_single_conversation_length)%Z.
Proof.
  destruct comments as [comments|]; simpl; [|intros []].
  intros H. apply extract_loop_In in H. destruct H as [[]|[comment H]].
  eapply extract_one_formatted, H.
Qed.

Lemma build_definition_blocks (conversations : list Conversation)
      (username : str) :
  _build_definition conversations username
  = intro_of username ++ concat (blocks conversations username).
Proof.
  unfold _build_definition, blocks, pack. rewrite pack_loop_parts.
  reflexivity.
Qed.

(** C3: the artifact is the intro line followed by the rendered blocks,
    and every block of the conversations the builder retained (selected
    in any order the sort gives) has at most
    [max_single_conversation_length] = 800 characters. *)
Theorem blocks_within_single_limit (comments : option (list Comment))
        (username : str) :
  _build_definition
    (sort_conversations (_extract_conversations comments)) username
  = intro_of username
      ++ concat (blocks (sort_conversations (_extract_conversations comments))
                        username)
  /\ Forall (fun block => (len block <= max_single_conversation_length)%Z)
            (blocks (sort_conversations (_extract_conversations comments))
                    username).
Proof.
  split; [apply build_definition_blocks|].
  apply Forall_forall. intros block Hin.
  apply In_nth_error in Hin. destruct Hin as [n Hn].
  rewrite blocks_emitted in Hn. apply emitted_nth in Hn.
  destruct Hn as (conv & Hconv & ->).
  apply nth_error_In in Hconv.
  apply (Permutation_in conv
           (Permutation_sym (list_sort_perm sort_key tuple_lt true _)))
    in Hconv.
  apply extract_conversations_formatted in Hconv.
  rewrite (format_len_placeholder conv
             (c := Nat.iter n next_counter 1%Z) (d := 1%Z)).
  - exact Hconv.
  - apply iter_next_counter_range. lia.
  - lia.
Qed.

(** C8: a comment whose body has fewer than [min_comment_length] = 10 or
    more than [max_comment_length] = 300 characters yields no
    conversation: its iteration of the loop appends nothing. *)
Theorem body_length_filter (comment : Comment) :
  (len (body comment) < min_comment_length
   \/ len (body comment) > max_comment_length)%Z ->
  extract_one comment = None
  /\ forall more conversations,
       extract_loop (comment :: more) conversations
       = extract_loop more conversations.
Proof.
  intros H.
  assert (E : extract_one comment = None).
  { unfold extract_one. destruct (_ || _ || _); [reflexivity|].
    destruct (_ <? _)%Z eqn:E1; [reflexivity|].
    destruct (_ >? _)%Z eqn:E2; [reflexivity|]. lia. }
  split; [exact E|]. intros more conversations. simpl. rewrite E. reflexivity.
Qed.

Lemma body_length_filter_witness :
  len (body comment_short) = 5%Z
  /\ extract_one comment_short = None
  /\ forall more conversations,
       extract_loop (comment_short :: more) conversations
       = extract_loop more conversations.
Proof.
  split; [reflexivity|].
  apply (body_length_filter comment_short).
  left. vm_compute. reflexivity.
Defined.

(** ** The matcher *)

(** The matcher calls its continuation on states that have no more text
    left than the one it started from. *)
Lemma star_loop_ext (A : Type) (g : bool) (r : regex) :
  (forall st (k1 k2 : mstate -> option A),
     (forall st', length (rest st') <= length (rest st) -> k1 st' = k2 st') ->
     rmatch r st k1 = rmatch r st k2) ->
  forall n st (k1 k2 : mstate -> option A),
    (forall st', length (rest st') <= length (rest st) -> k1 st' = k2 st') ->
    star_loop g (rmatch r) k1 n st = star_loop g (rmatch r) k2 n st.
Proof.
  intros IHr. induction n as [|n IHn]; intros st k1 k2 Hk; simpl.
  - apply Hk. lia.
  - rewrite (Hk st) by lia.
    rewrite (IHr st _ (fun st1 =>
               if length (rest st1) <? length (rest st)
               then star_loop g (rmatch r) k2 n st1 else None)).
    + reflexivity.
    + intros st1 Hl. destruct (_ <? _) eqn:E; [|reflexivity].
      apply IHn. intros st' Hl'. apply Hk. lia.
Qed.

Lemma rmatch_ext (A : Type) (r : regex) :
  forall st (k1 k2 : mstate -> option A),
    (forall st', length (rest st') <= length (rest st) -> k1 st' = k2 st') ->
    rmatch r st k1 = rmatch r st k2.
Proof.
  induction r as [|p|r1 IH1 r2 IH2|r1 IH1 r2 IH2|g r IH|r IH| |];
    intros st k1 k2 Hk; cbn [rmatch].
  - apply Hk. lia.
  - destruct (rest st) as [|c t] eqn:E; [reflexivity|].
    destruct (p c); [|reflexivity]. apply Hk. simpl. lia.
  - apply IH1. intros st1 Hl. apply IH2. intros st2 Hl2. apply Hk. lia.
  - rewrite (IH1 st k1 k2 Hk), (IH2 st k1 k2 Hk). reflexivity.
  - apply star_loop_ext; assumption.
  - apply IH. intros st1 Hl. apply Hk. simpl. lia.
  - destruct (prev st) as [c|]; [destruct (Ascii.eqb c newline)|];
      try reflexivity; apply Hk; lia.
  - destruct (rest st) as [|c t] eqn:E;
      [|destruct (Ascii.eqb c newline)]; try reflexivity;
      apply Hk; rewrite E; simpl; lia.
Qed.

(** The counter of a repetition is never exhausted: from any count above
    the length of the text left, the loop gives the same result. *)
Lemma star_loop_counter (A : Type) (g : bool) (r : regex)
      (k : mstate -> option A) :
  forall n m st, length (rest st) < n -> length (rest st) < m ->
    star_loop g (rmatch r) k n st = star_loop g (rmatch r) k m st.
Proof.
  induction n as [|n IHn]; intros m st Hn Hm; [lia|].
  destruct m as [|m]; [lia|]. simpl.
  rewrite (@rmatch_ext A r st _ (fun st1 =>
             if length (rest st1) <? length (rest st)
             then star_loop g (rmatch r) k m st1 else None)).
  - reflexivity.
  - intros st1 Hl. destruct (_ <? _) eqn:E; [|reflexivity].
    apply Nat.ltb_lt in E. apply IHn; lia.
Qed.

Lemma star_loop_sound (A : Type) (g : bool) (r : regex)
      (k : mstate -> option A) (x : A) :
  (forall st k', rmatch r st k' = Some x ->
                 exists st', steps r st st' /\ k' st' = Some x) ->
  forall n st, star_loop g (rmatch r) k n st = Some x ->
               exists st', steps (Star g r) st st' /\ k st' = Some x.
Proof.
  intros IHr. induction n as [|n IHn]; intros st H; simpl in H.
  - exists st. split; [constructor|exact H].
  - assert (Hagain :
      rmatch r st (fun st1 =>
        if length (rest st1) <? length (rest st)
        then star_loop g (rmatch r) k n st1 else None) = Some x ->
      exists st', steps (Star g r) st st' /\ k st' = Some x).
    { intros Hb. apply IHr in Hb. destruct Hb as (st1 & Hs & Hk).
      destruct (length (rest st1) <? length (rest st)) eqn:E; [|discriminate].
      apply Nat.ltb_lt in E. apply IHn in Hk. destruct Hk as (st2 & Hs2 & Hk).
      exists st2. split; [|exact Hk].
      eapply steps_star_more; eassumption. }
    destruct g.
    + destruct (rmatch r st _) as [y|] eqn:E.
      * injection H as ->. apply Hagain. reflexivity.
      * exists st. split; [constructor|exact H].
    + destruct (k st) as [y|] eqn:E.
      * injection H as ->. exists st. split; [constructor|exact E].
      * apply Hagain, H.
Qed.

Lemma rmatch_sound (A : Type) (r : regex) (x : A) :
  forall st (k : mstate -> option A),
    rmatch r st k = Some x ->
    exists st', steps r st st' /\ k st' = Some x.
Proof.
  induction r as [|p|r1 IH1 r2 IH2|r1 IH1 r2 IH2|g r IH|r IH| |];
    intros st k H; cbn [rmatch] in H.
  - exists st. split; [constructor|exact H].
  - destruct (rest st) as [|c t] eqn:E; [discriminate|].
    destruct (p c) eqn:Ep; [|discriminate].
    eexists. split; [|exact H]. econstructor; eassumption.
  - apply IH1 in H. destruct H as (st1 & Hs1 & H).
    apply IH2 in H. destruct H as (st2 & Hs2 & H).
    exists st2. split; [|exact H]. econstructor; eassumption.
  - destruct (rmatch r1 st k) as [y|] eqn:E.
    + injection H as ->. apply IH1 in E. destruct E as (st1 & Hs & Hk).
      exists st1. split; [|exact Hk]. apply steps_alt_l, Hs.
    + apply IH2 in H. destruct H as (st1 & Hs & Hk).
      exists st1. split; [|exact Hk]. apply steps_alt_r, Hs.
  - eapply star_loop_sound; [|exact H]. intros st0 k'. apply IH.
  - apply IH in H. destruct H as (st1 & Hs & Hk).
    eexists. split; [|exact Hk]. constructor. exact Hs.
  - destruct (prev st) as [c|] eqn:E.
    + destruct (Ascii.eqb c newline) eqn:Ec; [|discriminate].
      apply Ascii.eqb_eq in Ec. subst c.
      exists st. split; [|exact H]. constructor. right. exact E.
    + exists st. split; [|exact H]. constructor. left. exact E.
  - destruct (rest st) as [|c t] eqn:E.
    + exists st. split; [|exact H]. constructor. left. exact E.
    + destruct (Ascii.eqb c newline) eqn:Ec; [|discriminate].
      apply Ascii.eqb_eq in Ec. subst c.
      exists st. split; [|exact H]. constructor. right. exists t. exact E.
Qed.

Lemma steps_minlen (r : regex) (st st' : mstate) :
  steps r st st' -> length (rest st') + minlen r <= length (rest st).
Proof.
  induction 1; simpl in *; try lia.
  rewrite H. simpl. lia.
Qed.

Lemma steps_captured_within (s : str) (r : regex) (st st' : mstate) :
  steps r st st' -> captured_within s st -> captured_within s st'.
Proof.
  induction 1; intros Hc; auto.
  - destruct Hc as [Hl Hg]. rewrite H in Hl, Hg. simpl in Hl, Hg.
    split; simpl; [lia|]. intros g Eg. apply Hg in Eg. lia.
  - pose proof (steps_minlen H) as Hm. pose proof (proj1 Hc) as Hs.
    apply IHsteps in Hc. destruct Hc as [Hl Hg].
    split; simpl; [exact Hl|].
    intros g Eg. injection Eg as <-. rewrite length_firstn. lia.
Qed.

(** A match at a position: its length and its capture. *)
Lemma match_at_sound (r : regex) (p : option ascii) (s : str) (b : bool)
      (n : nat) (g : option str) :
  match_at r p s b = Some (n, g) ->
  exists st', steps r (MState p s None) st'
              /\ n = length s - length (rest st') /\ g = grp st'.
Proof.
  unfold match_at. intros H. apply rmatch_sound in H.
  destruct H as (st' & Hs & Hk). exists st'. split; [exact Hs|].
  destruct (b && _); [discriminate|]. injection Hk as <- <-. split; reflexivity.
Qed.

Lemma match_at_bounds (r : regex) (p : option ascii) (s : str) (b : bool)
      (n : nat) (g : option str) :
  match_at r p s b = Some (n, g) ->
  minlen r <= n <= length s
  /\ forall w, g = Some w -> length w <= n.
Proof.
  intros H. apply match_at_sound in H. destruct H as (st' & Hs & -> & ->).
  pose proof (steps_minlen Hs) as Hm. simpl in Hm.
  assert (Hc : captured_within s (MState p s None)).
  { split; simpl; [lia|discriminate]. }
  apply (steps_captured_within Hs) in Hc. destruct Hc as [Hl Hg].
  split; [lia|]. intros w Ew. apply Hg in Ew. lia.
Qed.

Lemma expand_shrinking (r : regex) (t : template) (p : option ascii)
      (s : str) (b : bool) (n : nat) (g : option str) :
  shrinking r t -> match_at r p s b = Some (n, g) ->
  length (expand t g) <= n <= length s.
Proof.
  intros Ht H. apply match_at_bounds in H. destruct H as [Hn Hg].
  split; [|lia]. destruct t as [|l]; simpl in *.
  - destruct g as [w|]; simpl; [apply Hg; reflexivity|lia].
  - lia.
Qed.

Lemma sub_from_length (r : regex) (t : template) :
  shrinking r t ->
  forall s p skip, skip <= length s ->
    length (sub_from r t p s skip) + skip <= length s.
Proof.
  intros Ht.
  assert (Hx : forall p s b n g, match_at r p s b = Some (n, g) ->
                 length (expand t g) <= n <= length s).
  { intros p s b n g. apply expand_shrinking, Ht. }
  induction s as [|c s IH]; intros p skip Hskip; simpl in *.
  - destruct skip; [|lia].
    destruct (match_at r p [] false) as [[n g]|] eqn:E; simpl; [|lia].
    apply Hx in E. simpl in E. lia.
  - destruct skip as [|skip].
    + destruct (match_at r p (c :: s) false) as [[[|n] g]|] eqn:E.
      * apply Hx in E. rewrite length_app.
        destruct (match_at r p (c :: s) true) as [[[|n'] g']|] eqn:E'.
        -- simpl. specialize (IH (Some c) 0). lia.
        -- apply Hx in E'. simpl in E'.
           rewrite length_app. specialize (IH (Some c) n'). lia.
        -- simpl. specialize (IH (Some c) 0). lia.
      * apply Hx in E. simpl in E.
        rewrite length_app. specialize (IH (Some c) n). lia.
      * simpl. specialize (IH (Some c) 0). lia.
    + specialize (IH (Some c) skip). lia.
Qed.

Lemma sub_length (r : regex) (t : template) (text : str) :
  shrinking r t -> length (sub r t text) <= length text.
Proof.
  intros Ht. unfold sub.
  pose proof (@sub_from_length r t Ht text None 0). simpl in *. lia.
Qed.

Lemma lstrip_length (s : str) : length (lstrip s) <= length s.
Proof.
  induction s as [|c s IH]; simpl; [lia|].
  destruct (isspace c); simpl; lia.
Qed.

Lemma strip_length (s : str) : length (strip s) <= length s.
Proof.
  unfold strip, rstrip. rewrite length_rev.
  pose proof (lstrip_length (rev (lstrip s))) as H1. rewrite length_rev in H1.
  pose proof (lstrip_length s). lia.
Qed.

(** C10: the sanitizer never lengthens its input: for every string x,
    len(_clean_text(x)) <= len(x). *)
Theorem clean_text_no_longer (x : str) : (len (_clean_text x) <= len x)%Z.
Proof.
  unfold len. apply inj_le. unfold _clean_text.
  destruct x as [|c x]; [simpl; lia|]. cbv zeta.
  repeat (eapply Nat.le_trans;
          [ first [ apply sub_length; simpl; lia | apply strip_length ] | ]).
  lia.
Qed.

(** ** Plain text *)
Ltac by_evaluation := vm_compute; reflexivity.

Lemma all_ascii_complete (c : ascii) : In c all_ascii.
Proof.
  unfold all_ascii. rewrite <- (ascii_nat_embedding c).
  apply in_map, in_seq. pose proof (nat_ascii_bounded c). lia.
Qed.

Lemma for_all_ascii_spec (p : ascii -> bool) :
  for_all_ascii p = true -> forall c, p c = true.
Proof.
  unfold for_all_ascii. rewrite forallb_forall.
  intros H c. apply H, all_ascii_complete.
Qed.

Lemma steps_suffix (r : regex) (st st' : mstate) :
  steps r st st' -> exists w, rest st = w ++ rest st'.
Proof.
  induction 1; try (exists []; reflexivity).
  - exists [c]. rewrite H. reflexivity.
  - destruct IHsteps1 as [w1 E1], IHsteps2 as [w2 E2].
    exists (w1 ++ w2). rewrite E1, E2, app_assoc. reflexivity.
  - assumption.
  - assumption.
  - destruct IHsteps1 as [w1 E1], IHsteps2 as [w2 E2].
    exists (w1 ++ w2). rewrite E1, E2, app_assoc. reflexivity.
  - exact IHsteps.
Qed.

Lemma steps_needs (q : ascii -> bool) (r : regex) (st st' : mstate) :
  steps r st st' -> needs q r = true ->
  exists c, In c (rest st) /\ q c = true.
Proof.
  induction 1; simpl; intros Hn; try discriminate.
  - exists c. rewrite H. split; [left; reflexivity|].
    pose proof (for_all_ascii_spec _ Hn c) as Hc. simpl in Hc.
    rewrite H0 in Hc. exact Hc.
  - apply orb_true_iff in Hn. destruct Hn as [Hn|Hn].
    + apply IHsteps1, Hn.
    + destruct (IHsteps2 Hn) as (c & Hin & Hq).
      destruct (steps_suffix H) as [w E].
      exists c. split; [|exact Hq]. rewrite E. apply in_or_app. right. exact Hin.
  - apply andb_true_iff in Hn. apply IHsteps, Hn.
  - apply andb_true_iff in Hn. apply IHsteps, Hn.
  - apply IHsteps, Hn.
Qed.

Lemma match_at_needs (q : ascii -> bool) (r : regex) (p : option ascii)
      (s : str) (b : bool) :
  needs q r = true -> forallb (fun c => negb (q c)) s = true ->
  match_at r p s b = None.
Proof.
  intros Hn Hs. destruct (match_at r p s b) as [[n g]|] eqn:E; [|reflexivity].
  apply match_at_sound in E. destruct E as (st' & Hst & _).
  destruct (steps_needs q Hst Hn) as (c & Hin & Hq). simpl in Hin.
  rewrite forallb_forall in Hs. apply Hs in Hin. rewrite Hq in Hin.
  discriminate.
Qed.

(** Where the pattern cannot match, [re.sub] returns the text. *)
Lemma sub_from_needs (q : ascii -> bool) (r : regex) (t : template) :
  needs q r = true ->
  forall s p, forallb (fun c => negb (q c)) s = true ->
              sub_from r t p s 0 = s.
Proof.
  intros Hn. induction s as [|c s IH]; intros p Hs; simpl.
  - rewrite (match_at_needs q r p [] false Hn Hs). reflexivity.
  - rewrite (match_at_needs q r p (c :: s) false Hn Hs).
    simpl in Hs. apply andb_true_iff in Hs. rewrite IH by apply Hs.
    reflexivity.
Qed.

Lemma plain_from_not_special (b : bool) (s : str) :
  plain_from b s = true -> forallb (fun c => negb (special c)) s = true.
Proof.
  revert b. induction s as [|c s IH]; intros b H; simpl in *; [reflexivity|].
  unfold special at 1. rewrite negb_involutive.
  destruct (Ascii.eqb c " ") eqn:E.
  - apply andb_true_iff in H. rewrite orb_true_r. simpl. eapply IH, H.
  - apply andb_true_iff in H. destruct H as [-> H]. simpl. eapply IH, H.
Qed.

Lemma plain_not_special (s : str) :
  plain s = true -> forallb (fun c => negb (special c)) s = true.
Proof.
  destruct s; [reflexivity|]. apply plain_from_not_special.
Qed.

Lemma sub_plain (r : regex) (t : template) (s : str) :
  needs special r = true -> plain s = true -> sub r t s = s.
Proof.
  intros Hn Hs. unfold sub. apply sub_from_needs with (q := special).
  - exact Hn.
  - apply plain_not_special, Hs.
Qed.

Lemma ascii_implies (p q : ascii -> bool) :
  for_all_ascii (fun c => implb (p c) (q c)) = true ->
  forall c, p c = true -> q c = true.
Proof.
  intros H c Hp. pose proof (for_all_ascii_spec _ H c) as Hc. simpl in Hc.
  rewrite Hp in Hc. exact Hc.
Qed.

(** [r'[ \t]+'] on plain text: a space is matched alone and replaced by a
    space. *)
Lemma word_char_not_blank (c : ascii) : word_char c = true -> blank c = false.
Proof.
  intros H. apply negb_true_iff. revert c H. apply ascii_implies.
  vm_compute. reflexivity.
Qed.

Lemma word_char_not_space (c : ascii) :
  word_char c = true -> isspace c = false.
Proof.
  unfold word_char. intros H. apply andb_true_iff in H.
  apply negb_true_iff, H.
Qed.

Lemma match_at_spaces_word (p : option ascii) (c : ascii) (s : str) (b : bool) :
  blank c = false -> match_at Pat.spaces p (c :: s) b = None.
Proof.
  intros H. unfold match_at, Pat.spaces, Plus, cls. cbn [rmatch rest].
  fold (blank c). rewrite H. reflexivity.
Qed.

Lemma match_at_spaces_space (p : option ascii) (c : ascii) (s : str) :
  blank c = false ->
  match_at Pat.spaces p (" "%char :: c :: s) false = Some (1, None).
Proof.
  intros H. unfold match_at, Pat.spaces, Plus, cls. cbn [rmatch rest].
  change (in_class [CChar " "; CChar (ascii_of_nat 9)] " "%char) with true.
  cbn iota. cbn [star_loop rest length]. cbn [rmatch rest].
  fold (blank c). rewrite H. cbn [grp andb].
  replace (S (S (length s)) - S (length s)) with 1 by lia.
  reflexivity.
Qed.

Lemma sub_from_cons (r : regex) (t : template) (p : option ascii)
      (c : ascii) (s : str) :
  sub_from r t p (c :: s) 0
  = match match_at r p (c :: s) false with
    | None => c :: sub_from r t (Some c) s 0
    | Some (S n, g) => expand t g ++ sub_from r t (Some c) s n
    | Some (O, g) =>
        expand t g ++
        match match_at r p (c :: s) true with
        | Some (S n, g') => expand t g' ++ sub_from r t (Some c) s n
        | _ => c :: sub_from r t (Some c) s 0
        end
    end.
Proof. reflexivity. Qed.

Lemma sub_from_spaces_plain (s : str) :
  forall b p, plain_from b s = true ->
    sub_from Pat.spaces (TLit (py " ")) p s 0 = s.
Proof.
  induction s as [|c s IH]; intros b p H.
  - reflexivity.
  - cbn [plain_from] in H. destruct (Ascii.eqb c " ") eqn:Ec.
    + apply Ascii.eqb_eq in Ec. subst c.
      apply andb_true_iff in H. destruct H as [_ H].
      destruct s as [|d s]; [discriminate|].
      assert (Hd : blank d = false).
      { cbn [plain_from] in H. destruct (Ascii.eqb d " "); [discriminate|].
        apply andb_true_iff in H. apply word_char_not_blank, H. }
      rewrite sub_from_cons, match_at_spaces_space by exact Hd.
      rewrite (IH true (Some " "%char) H). reflexivity.
    + apply andb_true_iff in H. destruct H as [Hc H].
      rewrite sub_from_cons.
      rewrite match_at_spaces_word by (apply word_char_not_blank, Hc).
      rewrite (IH false (Some c) H). reflexivity.
Qed.

(** [strip()] on plain text *)
Lemma plain_from_last (s : str) (c : ascii) :
  forall b, plain_from b (s ++ [c]) = true -> isspace c = false.
Proof.
  induction s as [|d s IH]; intros b H; cbn [app plain_from] in H.
  - destruct (Ascii.eqb c " ").
    + apply andb_true_iff in H. destruct H as [_ H]. discriminate.
    + apply andb_true_iff in H. apply word_char_not_space, H.
  - destruct (Ascii.eqb d " "); apply andb_true_iff in H; eapply IH, H.
Qed.

Lemma strip_plain (s : str) : plain s = true -> strip s = s.
Proof.
  destruct s as [|c s]; [reflexivity|]. unfold plain. intros H.
  assert (Hl : lstrip (c :: s) = c :: s).
  { cbn [plain_from] in H. destruct (Ascii.eqb c " "); [discriminate|].
    apply andb_true_iff in H. destruct H as [Hc _].
    cbn [lstrip]. rewrite (@word_char_not_space c Hc). reflexivity. }
  unfold strip, rstrip. rewrite Hl.
  destruct (exists_last (l := c :: s)) as (s' & d & E); [discriminate|].
  rewrite E in *. rewrite rev_app_distr. cbn [rev app lstrip].
  rewrite (@plain_from_last s' d true H). cbn [rev].
  rewrite rev_involutive. reflexivity.
Qed.

(** Every pattern of [_clean_text] but [r'[ \t]+'] needs a character
    that plain text does not have. *)
Lemma clean_text_plain (x : str) : plain x = true -> _clean_text x = x.
Proof.
  intros H. unfold _clean_text. destruct x as [|c x]; [reflexivity|].
  cbv zeta.
  assert (N_bold : needs special Pat.bold = true) by by_evaluation.
  rewrite (@sub_plain Pat.bold TGroup1 (c :: x) N_bold H).
  assert (N_italic : needs special Pat.italic = true) by by_evaluation.
  rewrite (@sub_plain Pat.italic TGroup1 (c :: x) N_italic H).
  assert (N_strike : needs special Pat.strike = true) by by_evaluation.
  rewrite (@sub_plain Pat.strike TGroup1 (c :: x) N_strike H).
  assert (N_superscript : needs special Pat.superscript = true) by by_evaluation.
  rewrite (@sub_plain Pat.superscript TGroup1 (c :: x) N_superscript H).
  assert (N_code_span : needs special Pat.code_span = true) by by_evaluation.
  rewrite (@sub_plain Pat.code_span TGroup1 (c :: x) N_code_span H).
  assert (N_quote : needs special Pat.quote = true) by by_evaluation.
  rewrite (@sub_plain Pat.quote (TLit []) (c :: x) N_quote H).
  assert (N_quote_indented : needs special Pat.quote_indented = true) by by_evaluation.
  rewrite (@sub_plain Pat.quote_indented (TLit []) (c :: x) N_quote_indented H).
  assert (N_url : needs special Pat.url = true) by by_evaluation.
  rewrite (@sub_plain Pat.url (TLit []) (c :: x) N_url H).
  assert (N_slash_user : needs special Pat.slash_user = true) by by_evaluation.
  rewrite (@sub_plain Pat.slash_user (TLit []) (c :: x) N_slash_user H).
  assert (N_user : needs special Pat.user = true) by by_evaluation.
  rewrite (@sub_plain Pat.user (TLit []) (c :: x) N_user H).
  assert (N_slash_subreddit : needs special Pat.slash_subreddit = true) by by_evaluation.
  rewrite (@sub_plain Pat.slash_subreddit (TLit []) (c :: x) N_slash_subreddit H).
  assert (N_subreddit : needs special Pat.subreddit = true) by by_evaluation.
  rewrite (@sub_plain Pat.subreddit (TLit []) (c :: x) N_subreddit H).
  assert (N_blank_lines : needs special Pat.blank_lines = true) by by_evaluation.
  rewrite (@sub_plain Pat.blank_lines (TLit [newline; newline]) (c :: x) N_blank_lines H).
  unfold sub at 3. rewrite (@sub_from_spaces_plain (c :: x) true None H).
  rewrite (@strip_plain (c :: x) H).
  assert (N_edit_upper : needs special Pat.edit_upper = true) by by_evaluation.
  rewrite (@sub_plain Pat.edit_upper (TLit []) (c :: x) N_edit_upper H).
  assert (N_edit_title : needs special Pat.edit_title = true) by by_evaluation.
  rewrite (@sub_plain Pat.edit_title (TLit []) (c :: x) N_edit_title H).
  reflexivity.
Qed.


Example clean_text_carets :
  _clean_text (py "^^a") = py "^a" /\ _clean_text (py "^a") = py "a".
Proof. split; vm_compute; reflexivity. Qed.

(** On plain text, that is words of characters that are neither
    whitespace nor one of [*], [~], [^], the backquote, [&], [/] and [:],
    separated by single spaces, the sanitizer returns its input. *)
Theorem clean_text_idempotent_on_plain (x : str) :
  plain x = true ->
  _clean_text x = x /\ _clean_text (_clean_text x) = _clean_text x.
Proof.
  intros H. rewrite !(@clean_text_plain x H). split; reflexivity.
Qed.

Lemma clean_text_idempotent_on_plain_witness :
  _clean_text (py "hello world, 42 times") = py "hello world, 42 times"
  /\ _clean_text (_clean_text (py "hello world, 42 times"))
     = _clean_text (py "hello world, 42 times").
Proof.
  apply (clean_text_idempotent_on_plain (py "hello world, 42 times")).
  vm_compute. reflexivity.
Defined.

(** ** Scenario A *)

(** C7, as stated, fails: the result is not [hi]. *)
Lemma clean_text_scenario_a_not_hi :
  _clean_text (py "**hi** u/bob check http://x.co EDIT: nvm") <> py "hi".
Proof. vm_compute. discriminate. Qed.

(** C7, amended: the sanitizer turns
    [**hi** u/bob check http://x.co EDIT: nvm] into [hi check]: the bold
    markup is unwrapped and the mention, the URL and the edit tail are
    removed; the word [check] stays. *)
Theorem clean_text_scenario_a :
  _clean_text (py "**hi** u/bob check http://x.co EDIT: nvm") = py "hi check".
Proof. vm_compute. reflexivity. Qed.

(** ** Examples *)

Example extract_root_comment :
  extract_one comment_root
  = Some (mkConversation
            (py "What do you think of this?" ++ [newline]
               ++ py "Asking for a friend.")
            (py "I would not do *that* again") 12 74).
Proof. vm_compute. reflexivity. Qed.

Example extract_reply_comment :
  extract_one comment_reply
  = Some (mkConversation (py "Where can I read about it?")
                         (py "Thanks, see r/rocq for more") 0 53).
Proof. vm_compute. reflexivity. Qed.

Example extract_three_comments :
  length (_extract_conversations
            (Some [comment_root; comment_short; comment_reply])) = 2.
Proof. vm_compute. reflexivity. Qed.

Example format_reply_comment :
  format_for_character_ai
    (mkConversation (py "Where can I read about it?")
                    (py "Thanks, see r/rocq for more") 0 53)
    (placeholder 2)
  = py "{{random_user_2}}: Where can I read about it?" ++ [newline]
      ++ py "{{char}}: Thanks, see for more" ++ [newline; newline].
Proof. vm_compute. reflexivity. Qed.

(** Seven conversations: the placeholders go 1, 2, 3, 4, 5, 1, 2. *)
Example seven_placeholders :
  map (firstn 17)
      (blocks [conv_a; conv_b; conv_a; conv_b; conv_a; conv_b; conv_a]
              (py "spez"))
  = map placeholder [1; 2; 3; 4; 5; 1; 2]%Z.
Proof. vm_compute. reflexivity. Qed.

(** No conversation: the artifact is the intro line. *)
Example build_definition_empty (username : str) :
  _build_definition [] username = intro_of username.
Proof. rewrite build_definition_blocks. apply app_nil_r. Qed.

Example generate_without_comments :
  generate_character_definition (py "spez") None
  = py "No suitable conversations found for u/spez. The user might have no public activity or all comments are too short/long.".
Proof. vm_compute. reflexivity. Qed.

(** No pattern of [_clean_text] matches the empty string. *)
Example patterns_never_empty :
  forallb (fun r => 1 <=? minlen r)
    [Pat.bold; Pat.italic; Pat.strike; Pat.superscript; Pat.code_span;
     Pat.quote; Pat.quote_indented; Pat.url; Pat.slash_user; Pat.user;
     Pat.slash_subreddit; Pat.subreddit; Pat.blank_lines; Pat.spaces;
     Pat.edit_upper; Pat.edit_title] = true.
Proof. vm_compute. reflexivity. Qed.

(** * Further properties *)

(** ** The builder, comment by comment *)

Lemma extract_loop_flat_map (comments : list Comment)
      (conversations : list Conversation) :
  extract_loop comments conversations
  = conversations ++ flat_map conversations_of comments.
Proof.
  revert conversations.
  induction comments as [|comment more IH]; intros conversations; simpl.
  - symmetry. apply app_nil_r.
  - unfold conversations_of at 1.
    destruct (extract_one comment) as [conv|]; rewrite IH.
    + rewrite <- app_assoc. reflexivity.
    + reflexivity.
Qed.

(** X1: the conversations come in the order of the comments, each
    comment giving one or none: extracting from two lists of comments put
    end to end gives the two results end to end, and never more
    conversations than comments. *)
Theorem extract_conversations_app (first second : list Comment) :
  _extract_conversations (Some (first ++ second))
  = _extract_conversations (Some first) ++ _extract_conversations (Some second)
  /\ (length (_extract_conversations (Some first)) <= length first)%nat.
Proof.
  simpl. rewrite !extract_loop_flat_map. simpl. split.
  - apply flat_map_app.
  - induction first as [|c l IH]; simpl; [lia|].
    rewrite length_app. unfold conversations_of at 1.
    destruct (extract_one c); simpl; lia.
Qed.

Lemma clean_text_length (x : str) : length (_clean_text x) <= length x.
Proof.
  unfold _clean_text. destruct x as [|c x]; [simpl; lia|]. cbv zeta.
  repeat (eapply Nat.le_trans;
          [ first [ apply sub_length; simpl; lia | apply strip_length ] | ]).
  lia.
Qed.

Lemma format_len_le (conv : Conversation) (user_placeholder : str) :
  (len (format_for_character_ai conv user_placeholder)
   <= len user_placeholder + len (original_text conv)
      + len (reply_text conv) + 15)%Z.
Proof.
  rewrite format_len.
  pose proof (clean_text_length (original_text conv)).
  pose proof (clean_text_length (reply_text conv)).
  unfold len. lia.
Qed.

(** X4: a rendered conversation has at most the characters of the
    placeholder, of the two raw texts, and 15 more. *)
Theorem format_length_bound (conv : Conversation) (user_placeholder : str) :
  (len (format_for_character_ai conv user_placeholder)
   <= len user_placeholder + len (original_text conv)
      + len (reply_text conv) + 15)%Z.
Proof. apply format_len_le. Qed.

Lemma str_eqb_length (a b : str) : str_eqb a b = true -> length a = length b.
Proof.
  revert b. induction a as [|c a IH]; intros [|d b] H; simpl in *;
    try discriminate; [reflexivity|].
  apply andb_true_iff in H. f_equal. apply IH, H.
Qed.

Lemma body_filters_pass (s : str) :
  within_comment_limits s ->
  is_empty s || str_eqb s (py "[deleted]") || str_eqb s (py "[removed]") = false
  /\ (len s <? min_comment_length)%Z || (len s >? max_comment_length)%Z = false.
Proof.
  unfold within_comment_limits, min_comment_length, max_comment_length, len.
  intros H. split.
  - destruct s as [|c s]; [simpl in H; lia|]. simpl is_empty.
    destruct (str_eqb (c :: s) (py "[deleted]")) eqn:E1.
    { apply str_eqb_length in E1. simpl in E1. simpl in H. lia. }
    destruct (str_eqb (c :: s) (py "[removed]")) eqn:E2.
    { apply str_eqb_length in E2. simpl in E2. simpl in H. lia. }
    reflexivity.
  - apply orb_false_iff. split; lia.
Qed.

Lemma parent_filters_pass (s : str) :
  within_comment_limits s ->
  is_empty s || (len s <? min_comment_length)%Z
  || (len s >? max_comment_length)%Z = false.
Proof.
  unfold within_comment_limits, min_comment_length, max_comment_length, len.
  intros H. destruct s as [|c s]; [simpl in H; lia|]. simpl is_empty.
  apply orb_false_iff. split; lia.
Qed.

(** X3: the check of the rendered length never rejects: a comment whose
    body and parent text both have 10 to 300 characters is retained, with
    the score clamped at 0. *)
Theorem extract_one_retains (comment : Comment) (parent_text : str) :
  within_comment_limits (body comment) ->
  parent_text_of comment = Some parent_text ->
  within_comment_limits parent_text ->
  extract_one comment
  = Some (mkConversation parent_text (body comment)
            (Z.max (comment_score comment) 0)
            (len parent_text + len (body comment))).
Proof.
  intros Hb Hp Ht. unfold extract_one.
  destruct (body_filters_pass Hb) as [-> ->]. rewrite Hp.
  rewrite (parent_filters_pass Ht).
  match goal with |- context [(?x <=? ?y)%Z] => destruct (x <=? y)%Z eqn:E end;
    [reflexivity|].
  exfalso. apply Z.leb_gt in E.
  match type of E with
  | (_ < len (format_for_character_ai ?c ?p))%Z =>
      pose proof (format_len_le c p) as Hf
  end.
  change (len (py "{{random_user_1}}")) with 17%Z in Hf.
  cbn [original_text reply_text] in Hf.
  unfold within_comment_limits, min_comment_length, max_comment_length,
    max_single_conversation_length in *. lia.
Qed.

Lemma extract_one_retains_witness :
  extract_one comment_reply
  = Some (mkConversation (py "Where can I read about it?")
            (body comment_reply) (Z.max (comment_score comment_reply) 0)
            (len (py "Where can I read about it?") + len (body comment_reply))).
Proof.
  apply (@extract_one_retains comment_reply (py "Where can I read about it?")).
  - vm_compute. split; discriminate.
  - reflexivity.
  - vm_compute. split; discriminate.
Defined.

Lemma extract_one_invariant (comment : Comment) (conv : Conversation) :
  extract_one comment = Some conv ->
  within_comment_limits (original_text conv)
  /\ within_comment_limits (reply_text conv)
  /\ (0 <= score conv)%Z
  /\ length_ conv = (len (original_text conv) + len (reply_text conv))%Z
  /\ reply_text conv = body comment
  /\ parent_text_of comment = Some (original_text conv).
Proof.
  unfold extract_one.
  destruct (_ || _ || _); [discriminate|].
  destruct (_ || _) eqn:E1; [discriminate|].
  apply orb_false_iff in E1. destruct E1 as [E1 E2].
  destruct (parent_text_of comment) as [parent_text|]; [|discriminate].
  destruct (_ || _ || _) eqn:E3; [discriminate|].
  apply orb_false_iff in E3. destruct E3 as [E3 E4].
  apply orb_false_iff in E3. destruct E3 as [_ E3].
  destruct (_ <=? _)%Z; [|discriminate].
  intros H. injection H as <-.
  cbn [original_text reply_text score length_].
  unfold within_comment_limits. repeat split; try lia.
Qed.

Lemma extract_conversations_limits (comments : option (list Comment))
      (conv : Conversation) :
  In conv (_extract_conversations comments) ->
  within_comment_limits (original_text conv)
  /\ within_comment_limits (reply_text conv)
  /\ (0 <= score conv)%Z
  /\ length_ conv = (len (original_text conv) + len (reply_text conv))%Z.
Proof.
  intros Hin.
  destruct comments as [comments|]; simpl in Hin; [|destruct Hin].
  apply extract_loop_In in Hin. destruct Hin as [[]|[comment H]].
  apply extract_one_invariant in H. tauto.
Qed.

(** X2: every conversation the builder returns has both texts of 10 to
    300 characters, a score of at least 0, and a [length] that is the sum
    of the lengths of its two texts. *)
Theorem extract_conversations_invariant (comments : option (list Comment)) :
  Forall (fun conv =>
            within_comment_limits (original_text conv)
            /\ within_comment_limits (reply_text conv)
            /\ (0 <= score conv)%Z
            /\ length_ conv
               = (len (original_text conv) + len (reply_text conv))%Z)
         (_extract_conversations comments).
Proof.
  apply Forall_forall. intros conv Hin.
  apply (extract_conversations_limits comments conv Hin).
Qed.

(** X5: a comment whose parent text cannot be had (the client raised, or
    the parent has no body) is skipped: the result is the one without that
    comment. *)
Theorem unresolved_parent_skipped (before after : list Comment)
        (comment : Comment) :
  parent_text_of comment = None ->
  _extract_conversations (Some (before ++ comment :: after))
  = _extract_conversations (Some (before ++ after)).
Proof.
  intros H. simpl. rewrite !extract_loop_flat_map. simpl.
  rewrite !flat_map_app. simpl. f_equal.
  unfold conversations_of at 1. unfold extract_one. rewrite H.
  destruct (_ || _ || _); [reflexivity|].
  destruct (_ || _); reflexivity.
Qed.

Lemma unresolved_parent_skipped_witness :
  _extract_conversations
    (Some ([comment_root] ++ comment_orphan :: [comment_reply]))
  = _extract_conversations (Some ([comment_root] ++ [comment_reply])).
Proof.
  apply (@unresolved_parent_skipped [comment_root] [comment_reply]
           comment_orphan).
  reflexivity.
Defined.

(** X6: a root comment on a post with a self-text shorter than 300
    characters is rejected when title and self-text together have 300
    characters or more: the title alone is not tried. *)
Theorem post_too_long_with_selftext (comment : Comment) (post : Submission) :
  is_root comment = true ->
  submission comment = Some post ->
  (0 < len (selftext post) < max_comment_length)%Z ->
  (len (title post) + len (selftext post) >= max_comment_length)%Z ->
  extract_one comment = None.
Proof.
  intros Hroot Hsub Hself Hlong. unfold extract_one.
  destruct (_ || _ || _); [reflexivity|].
  destruct (_ || _); [reflexivity|].
  unfold parent_text_of. rewrite Hroot, Hsub.
  destruct (selftext post) as [|c s] eqn:Es;
    [change (len []) with 0%Z in Hself; lia|].
  cbn [is_empty negb andb].
  destruct (_ <? _)%Z eqn:E; [|lia].
  match goal with
  | |- context [(len ?t >? max_comment_length)%Z] =>
      assert (Hgt : (len t >? max_comment_length)%Z = true)
  end.
  { apply Z.gtb_lt. unfold max_comment_length, len in *.
    rewrite !length_app. simpl length in *. lia. }
  rewrite Hgt, orb_true_r. reflexivity.
Qed.

Lemma post_too_long_with_selftext_witness :
  extract_one comment_long_post = None.
Proof.
  apply (@post_too_long_with_selftext comment_long_post
           (mkSubmission (repeat "t"%char 200) (repeat "s"%char 150)));
    try reflexivity.
  - vm_compute. split; reflexivity.
  - vm_compute. discriminate.
Defined.

(** ** The sort, once more *)

Section ListSortAgain.
Variables (A K : Type) (key : A -> K) (lt : K -> K -> bool).
Hypothesis lt_asym : forall a b, lt a b = true -> lt b a = false.

Lemma sort_ascending_sorted_id (l : list A) :
  Sorted (ascending key lt) l -> sort_ascending key lt l = l.
Proof.
  induction 1 as [|x l Hs IH Hhd]; simpl; [reflexivity|].
  rewrite IH. destruct Hhd as [|y l' Hxy]; simpl; [reflexivity|].
  unfold ascending in Hxy. rewrite Hxy. reflexivity.
Qed.

Lemma list_sort_reverse_idempotent (l : list A) :
  list_sort key lt true (list_sort key lt true l) = list_sort key lt true l.
Proof.
  unfold list_sort. rewrite rev_involutive.
  rewrite sort_ascending_sorted_id; [reflexivity|].
  apply sort_ascending_sorted, lt_asym.
Qed.
End ListSortAgain.

(** X7: sorting the conversations twice is sorting them once. *)
Theorem sort_conversations_idempotent (conversations : list Conversation) :
  sort_conversations (sort_conversations conversations)
  = sort_conversations conversations.
Proof.
  unfold sort_conversations. apply list_sort_reverse_idempotent.
  apply tuple_lt_asym.
Qed.

Lemma shorter_first_trans (a b c : Conversation) :
  shorter_first a b -> shorter_first b c -> shorter_first a c.
Proof. unfold shorter_first. lia. Qed.

Lemma sort_conversations_strongly_sorted (conversations : list Conversation) :
  StronglySorted shorter_first (sort_conversations conversations).
Proof.
  apply Sorted_StronglySorted.
  - intros a b c. apply shorter_first_trans.
  - apply Sorted_impl with (R := descending sort_key tuple_lt).
    + apply descending_shorter_first.
    + apply list_sort_reverse_sorted, tuple_lt_asym.
Qed.

(** X8: the first conversation of the selected order has the highest
    score of all. *)
Theorem sort_conversations_best_first
        (conversations : list Conversation) (conv : Conversation) :
  In conv conversations ->
  exists first rest,
    sort_conversations conversations = first :: rest
    /\ (score conv <= score first)%Z.
Proof.
  intros Hin.
  pose proof (sort_conversations_strongly_sorted conversations) as Hs.
  apply (Permutation_in conv
           (list_sort_perm sort_key tuple_lt true conversations)) in Hin.
  fold (sort_conversations conversations) in Hin.
  destruct (sort_conversations conversations) as [|first rest];
    [destruct Hin|].
  exists first, rest. split; [reflexivity|].
  destruct Hin as [<-|Hin]; [lia|].
  apply StronglySorted_inv in Hs. destruct Hs as [_ Hall].
  rewrite Forall_forall in Hall. apply Hall in Hin.
  unfold shorter_first in Hin. lia.
Qed.

Lemma sort_conversations_best_first_witness :
  exists first rest,
    sort_conversations [conv_a; conv_long; conv_b] = first :: rest
    /\ (score conv_b <= score first)%Z.
Proof.
  apply (@sort_conversations_best_first [conv_a; conv_long; conv_b] conv_b).
  simpl. auto.
Defined.

(** ** The packing loop: what fits and what is left out *)

(** Appending conversations only appends blocks. *)
Lemma emitted_app (first more : list Conversation) (total counter : Z) :
  exists tail,
    emitted (first ++ more) total counter
    = emitted first total counter ++ tail.
Proof.
  revert total counter.
  induction first as [|conv first IH]; intros total counter; simpl.
  - eexists. reflexivity.
  - destruct (_ >? _)%Z.
    + exists []. reflexivity.
    + destruct (IH (total + len (format_for_character_ai conv
                                   (placeholder counter)))%Z
                   (next_counter counter)) as [tail E].
      exists tail. rewrite E. reflexivity.
Qed.

(** X12: more conversations at the end of the input only extend the
    artifact. *)
Theorem build_definition_extends (conversations more : list Conversation)
        (username : str) :
  exists tail,
    _build_definition (conversations ++ more) username
    = _build_definition conversations username ++ tail.
Proof.
  rewrite !build_definition_blocks, !blocks_emitted.
  destruct (emitted_app conversations more (len (intro_of username)) 1)
    as [tail E].
  exists (concat tail). rewrite E, concat_app, app_assoc. reflexivity.
Qed.

(** Where the loop stops short, the next conversation does not fit. *)
Lemma emitted_stop (conversations : list Conversation) (total counter : Z) :
  length (emitted conversations total counter) < length conversations ->
  exists conv,
    nth_error conversations (length (emitted conversations total counter))
    = Some conv
    /\ (total + len (concat (emitted conversations total counter))
        + len (format_for_character_ai conv
                 (placeholder
                    (Nat.iter (length (emitted conversations total counter))
                              next_counter counter)))
        > max_definition_length)%Z.
Proof.
  revert total counter.
  induction conversations as [|conv more IH]; intros total counter H.
  - simpl in H. lia.
  - cbn [emitted] in *. cbv zeta in *.
    destruct (_ >? _)%Z eqn:E.
    + exists conv. split; [reflexivity|]. cbn [length concat].
      change (Nat.iter 0 next_counter counter) with counter.
      change (len []) with 0%Z. apply Z.gtb_lt in E. lia.
    + cbn [length] in H. apply PeanoNat.lt_S_n in H.
      destruct (IH _ _ H) as (c & Hc & Hgt).
      exists c. cbn [length nth_error concat]. split; [exact Hc|].
      rewrite Nat.iter_succ_r, len_app. lia.
Qed.

(** X10: when the artifact leaves conversations out, the first one left
    out did not fit: its rendered text would take the artifact over
    [max_definition_length]. *)
Theorem build_definition_full (conversations : list Conversation)
        (username : str) :
  length (blocks conversations username) < length conversations ->
  exists conv,
    nth_error conversations (length (blocks conversations username))
    = Some conv
    /\ (len (_build_definition conversations username)
        + len (format_for_character_ai conv
                 (placeholder
                    (Z.of_nat (length (blocks conversations username)) mod 5
                     + 1)))
        > max_definition_length)%Z.
Proof.
  rewrite build_definition_blocks, blocks_emitted. intros H.
  destruct (emitted_stop _ _ _ H) as (conv & Hc & Hgt).
  exists conv. split; [exact Hc|].
  rewrite iter_next_counter in Hgt. rewrite len_app. exact Hgt.
Qed.

Lemma build_definition_full_witness :
  exists conv,
    nth_error (repeat conv_long 52)
              (length (blocks (repeat conv_long 52) (py "spez")))
    = Some conv
    /\ (len (_build_definition (repeat conv_long 52) (py "spez"))
        + len (format_for_character_ai conv
                 (placeholder
                    (Z.of_nat (length (blocks (repeat conv_long 52)
                                              (py "spez"))) mod 5 + 1)))
        > max_definition_length)%Z.
Proof.
  apply (@build_definition_full (repeat conv_long 52) (py "spez")).
  vm_compute. repeat constructor.
Defined.

(** Conversations whose blocks have at most [bound] characters: as long as
    [k] blocks of [bound] characters fit, [k] conversations are taken. *)
Lemma emitted_at_least (bound : Z) (conversations : list Conversation) :
  Forall (fun conv => forall c, (1 <= c <= 5)%Z ->
            (len (format_for_character_ai conv (placeholder c)) <= bound)%Z)
         conversations ->
  forall (k : nat) (total counter : Z),
    (1 <= counter <= 5)%Z ->
    (total + bound * Z.of_nat k <= max_definition_length)%Z ->
    Nat.min (length conversations) k
    <= length (emitted conversations total counter).
Proof.
  induction 1 as [|conv more Hconv Hmore IH]; intros k total counter Hc Hk;
    simpl; [lia|].
  destruct k as [|k]; [lia|].
  specialize (Hconv counter Hc).
  pose proof (len_nonneg (format_for_character_ai conv (placeholder counter)))
    as Hpos.
  rewrite Nat2Z.inj_succ, Z.mul_succ_r in Hk.
  assert (Hbk : (0 <= bound * Z.of_nat k)%Z) by nia.
  destruct (_ >? _)%Z eqn:E; [apply Z.gtb_lt in E; lia|].
  cbn [length]. apply le_n_S. apply IH.
  - apply next_counter_range.
  - lia.
Qed.

Lemma builder_block_bound (comments : option (list Comment))
      (conv : Conversation) (c : Z) :
  In conv (_extract_conversations comments) ->
  (1 <= c <= 5)%Z ->
  (len (format_for_character_ai conv (placeholder c)) <= 632)%Z.
Proof.
  intros Hin Hc.
  apply extract_conversations_limits in Hin.
  destruct Hin as (Ho & Hr & _).
  pose proof (format_len_le conv (placeholder c)) as Hf.
  rewrite (placeholder_len Hc) in Hf.
  unfold within_comment_limits, max_comment_length in *. lia.
Qed.

(** X9: with a username of at most 303 characters, the artifact holds
    all the conversations of the builder, or at least 50 of them. *)
Theorem fifty_conversations_fit (comments : option (list Comment))
        (username : str) :
  (len username <= 303)%Z ->
  Nat.min (length (_extract_conversations comments)) 50
  <= length (blocks (sort_conversations (_extract_conversations comments))
                    username).
Proof.
  intros Hu. rewrite blocks_emitted.
  pose proof (list_sort_perm sort_key tuple_lt true
                (_extract_conversations comments)) as Hp.
  fold (sort_conversations (_extract_conversations comments)) in Hp.
  rewrite (Permutation_length Hp).
  apply emitted_at_least with (bound := 632%Z).
  - apply Forall_forall. intros conv Hin c Hc.
    apply (Permutation_in conv (Permutation_sym Hp)) in Hin.
    eapply builder_block_bound; eassumption.
  - lia.
  - rewrite intro_len. unfold max_definition_length. lia.
Qed.

Lemma fifty_conversations_fit_witness :
  Nat.min (length (_extract_conversations
                     (Some [comment_root; comment_short; comment_reply]))) 50
  <= length (blocks (sort_conversations
                       (_extract_conversations
                          (Some [comment_root; comment_short; comment_reply])))
                    (py "spez")).
Proof.
  apply (@fifty_conversations_fit
           (Some [comment_root; comment_short; comment_reply]) (py "spez")).
  vm_compute. discriminate.
Defined.

(** X11: after the loop the running total is the length of the artifact,
    the counter is the number of blocks modulo 5, plus 1, and there are no
    more blocks than conversations. *)
Theorem pack_invariants (conversations : list Conversation)
        (username : str) :
  current_length (pack conversations username)
  = len (_build_definition conversations username)
  /\ user_counter (pack conversations username)
     = (Z.of_nat (length (blocks conversations username)) mod 5 + 1)%Z
  /\ length (blocks conversations username) <= length conversations.
Proof.
  split; [symmetry; apply build_definition_len|]. split.
  - unfold pack. rewrite emitted_counter. rewrite blocks_emitted.
    cbn [pack_init current_length user_counter]. rewrite Z.add_0_l.
    apply iter_next_counter.
  - rewrite blocks_emitted. generalize (len (intro_of username)) 1%Z.
    induction conversations as [|conv more IH]; intros total counter; simpl;
      [lia|].
    destruct (_ >? _)%Z; simpl; [lia|]. apply le_n_S, IH.
Qed.

(** ** [generate_character_definition] *)

Lemma generate_cases (username : str) (comments : option (list Comment)) :
  generate_character_definition username comments
  = if is_empty_list (_extract_conversations comments)
    then no_conversations_message username
    else _build_definition
           (sort_conversations (_extract_conversations comments)) username.
Proof. reflexivity. Qed.

(** X13: [generate_character_definition] never returns the empty
    string, so the test [if not definition] of [main] never holds. *)
Theorem generate_never_empty (username : str)
        (comments : option (list Comment)) :
  generate_character_definition username comments <> [].
Proof.
  rewrite generate_cases. destruct (is_empty_list _).
  - discriminate.
  - rewrite build_definition_blocks. discriminate.
Qed.

(** X15: for a username of at most 31886 characters the text returned by
    [generate_character_definition], artifact or message, has at most
    [max_definition_length] characters. *)
Theorem generate_within_budget (username : str)
        (comments : option (list Comment)) :
  (len username <= 31886)%Z ->
  (len (generate_character_definition username comments)
   <= max_definition_length)%Z.
Proof.
  intros Hu. rewrite generate_cases. destruct (is_empty_list _).
  - unfold no_conversations_message. rewrite !len_app.
    change (len (py "No suitable conversations found for u/")) with 38%Z.
    change (len (py ". The user might have no public activity or all comments are too short/long."))
      with 76%Z.
    unfold max_definition_length. lia.
  - rewrite build_definition_len. unfold pack.
    apply pack_loop_bound. simpl. rewrite intro_len.
    unfold max_definition_length. lia.
Qed.

Lemma generate_within_budget_witness :
  (len (generate_character_definition (py "spez")
          (Some [comment_root; comment_short; comment_reply]))
   <= max_definition_length)%Z.
Proof.
  apply (@generate_within_budget (py "spez")
           (Some [comment_root; comment_short; comment_reply])).
  vm_compute. discriminate.
Defined.

(** X14: the message that no conversation was found is returned exactly
    when no comment gives a conversation. *)
Theorem generate_message_iff (username : str) (comments : list Comment) :
  generate_character_definition username (Some comments)
  = no_conversations_message username
  <-> Forall (fun comment => extract_one comment = None) comments.
Proof.
  rewrite generate_cases. simpl _extract_conversations.
  rewrite extract_loop_flat_map. simpl app. split.
  - intros H. apply Forall_forall. intros comment Hin.
    destruct (extract_one comment) as [conv|] eqn:E; [|reflexivity].
    exfalso.
    assert (Hc : In conv (flat_map conversations_of comments)).
    { apply in_flat_map. exists comment. split; [exact Hin|].
      unfold conversations_of. rewrite E. left. reflexivity. }
    destruct (flat_map conversations_of comments) as [|c0 l] eqn:Ef;
      [destruct Hc|].
    simpl is_empty_list in H. cbv iota in H.
    rewrite build_definition_blocks in H.
    unfold no_conversations_message, intro_of in H. discriminate.
  - intros H.
    assert (E : flat_map conversations_of comments = []).
    { induction H as [|c l Hc Hl IH]; simpl; [reflexivity|].
      unfold conversations_of at 1. rewrite Hc. exact IH. }
    rewrite E. reflexivity.
Qed.

(** ** The characters of the cleaned text *)

Lemma steps_captured_from (s : str) (r : regex) (st st' : mstate) :
  steps r st st' -> captured_from s st -> captured_from s st'.
Proof.
  induction 1; intros Hc; auto.
  - destruct Hc as [[w Hw] Hg]. split; simpl.
    + exists (w ++ [c]). rewrite Hw, H, <- app_assoc. reflexivity.
    + exact Hg.
  - destruct Hc as [[w Hw] Hg0].
    destruct (IHsteps (conj (ex_intro _ w Hw) Hg0)) as [Hsuf _].
    split; simpl; [exact Hsuf|].
    intros g Eg. injection Eg as <-. intros c Hin.
    rewrite Hw. apply in_or_app. right.
    rewrite <- (firstn_skipn (length (rest st) - length (rest st1)) (rest st)).
    apply in_or_app. left. exact Hin.
Qed.

Lemma match_at_capture (r : regex) (p : option ascii) (s : str) (b : bool)
      (n : nat) (g : str) :
  match_at r p s b = Some (n, Some g) -> incl g s.
Proof.
  intros H. apply match_at_sound in H. destruct H as (st' & Hs & _ & Hg).
  assert (Hc : captured_from s (MState p s None)).
  { split; simpl; [exists []; reflexivity|discriminate]. }
  apply (steps_captured_from Hs) in Hc. destruct Hc as [_ Hc].
  apply Hc. symmetry. exact Hg.
Qed.

Lemma expand_chars (P : ascii -> Prop) (r : regex) (t : template)
      (p : option ascii) (s : str) (b : bool) (n : nat) (g : option str) :
  Forall P (template_chars t) -> Forall P s ->
  match_at r p s b = Some (n, g) -> Forall P (expand t g).
Proof.
  intros Ht Hs H. destruct t as [|l]; simpl; [|exact Ht].
  destruct g as [w|]; [|constructor].
  apply match_at_capture in H. rewrite Forall_forall in *.
  intros c Hin. apply Hs, H, Hin.
Qed.

(** [re.sub] builds its result from the characters of the text and of the
    template. *)
Lemma sub_from_chars (P : ascii -> Prop) (r : regex) (t : template) :
  Forall P (template_chars t) ->
  forall s p skip, Forall P s -> Forall P (sub_from r t p s skip).
Proof.
  intros Ht. induction s as [|c s IH]; intros p skip Hs.
  - simpl. destruct skip; [|constructor].
    destruct (match_at r p [] false) as [[n g]|] eqn:E; [|constructor].
    eapply expand_chars; eassumption.
  - destruct skip as [|skip].
    + rewrite sub_from_cons. inversion Hs as [|? ? Hc Hs']; subst.
      destruct (match_at r p (c :: s) false) as [[[|n] g]|] eqn:E.
      * apply Forall_app.
        split; [exact (@expand_chars P r t p (c :: s) false _ g Ht Hs E)|].
        destruct (match_at r p (c :: s) true) as [[[|n'] g']|] eqn:E'.
        -- constructor; [exact Hc|apply IH, Hs'].
        -- apply Forall_app.
           split; [exact (@expand_chars P r t p (c :: s) true _ g' Ht Hs E')|].
           apply IH, Hs'.
        -- constructor; [exact Hc|apply IH, Hs'].
      * apply Forall_app.
        split; [exact (@expand_chars P r t p (c :: s) false _ g Ht Hs E)|].
        apply IH, Hs'.
      * constructor; [exact Hc|apply IH, Hs'].
    + simpl. apply IH. inversion Hs; assumption.
Qed.

Lemma sub_chars (P : ascii -> Prop) (r : regex) (t : template) (s : str) :
  Forall P (template_chars t) -> Forall P s -> Forall P (sub r t s).
Proof. intros Ht Hs. unfold sub. apply sub_from_chars; assumption. Qed.

Lemma lstrip_chars (P : ascii -> Prop) (s : str) :
  Forall P s -> Forall P (lstrip s).
Proof.
  induction 1 as [|c s Hc Hs IH]; simpl; [constructor|].
  destruct (isspace c); [exact IH|constructor; assumption].
Qed.

Lemma strip_chars (P : ascii -> Prop) (s : str) :
  Forall P s -> Forall P (strip s).
Proof.
  intros H. unfold strip, rstrip.
  apply Forall_rev, lstrip_chars, Forall_rev, lstrip_chars, H.
Qed.

Lemma clean_text_chars (P : ascii -> Prop) (x : str) :
  P " "%char -> P newline -> Forall P x -> Forall P (_clean_text x).
Proof.
  intros Hsp Hnl Hx. unfold _clean_text.
  destruct x as [|c x]; [constructor|]. cbv zeta.
  repeat first
    [ apply sub_chars;
      [ simpl; repeat constructor; assumption | ]
    | apply strip_chars ].
  exact Hx.
Qed.

(** X16: the sanitizer invents no character: every character of the
    cleaned text occurs in the input or is a space or a newline. *)
Theorem clean_text_keeps_characters (x : str) :
  Forall (fun c => In c x \/ c = " "%char \/ c = newline) (_clean_text x).
Proof.
  apply clean_text_chars.
  - right. left. reflexivity.
  - right. right. reflexivity.
  - apply Forall_forall. intros c Hin. left. exact Hin.
Qed.

(** ** Tabs *)

Lemma star_loop_greedy_some (A : Type)
      (body : mstate -> (mstate -> option A) -> option A)
      (k : mstate -> option A) :
  (forall st, k st <> None) ->
  forall n st, star_loop true body k n st <> None.
Proof.
  intros Hk n st. destruct n as [|n]; simpl; [apply Hk|].
  destruct (body st _); [discriminate|apply Hk].
Qed.

Lemma match_at_spaces_none (p : option ascii) (c : ascii) (s : str) :
  match_at Pat.spaces p (c :: s) false = None -> blank c = false.
Proof.
  intros H. destruct (blank c) eqn:Hb; [|reflexivity]. exfalso.
  revert H. unfold match_at, Pat.spaces, Plus, cls. cbn [rmatch rest].
  fold (blank c). rewrite Hb. apply star_loop_greedy_some.
  intros st. cbn [andb]. discriminate.
Qed.

Lemma sub_from_spaces_chars (s : str) :
  forall p skip,
    Forall (fun c => blank c = false \/ c = " "%char)
           (sub_from Pat.spaces (TLit (py " ")) p s skip).
Proof.
  induction s as [|c s IH]; intros p skip.
  - destruct skip; simpl; constructor.
  - destruct skip as [|skip]; [|simpl; apply IH].
    rewrite sub_from_cons.
    destruct (match_at Pat.spaces p (c :: s) false) as [[[|n] g]|] eqn:E.
    + apply match_at_bounds in E. simpl in E. lia.
    + simpl. constructor; [right; reflexivity|apply IH].
    + constructor; [left; eapply match_at_spaces_none, E|apply IH].
Qed.

(** X17: the cleaned text has no tab. *)
Theorem clean_text_no_tab (x : str) : ~ In tab (_clean_text x).
Proof.
  assert (H : Forall (fun c => c <> tab) (_clean_text x)).
  { unfold _clean_text. destruct x as [|c x]; [constructor|]. cbv zeta.
    apply sub_chars; [constructor|].
    apply sub_chars; [constructor|].
    apply strip_chars. unfold sub.
    eapply Forall_impl; [|apply sub_from_spaces_chars].
    intros a [Ha| ->]; [|discriminate].
    intros ->. vm_compute in Ha. discriminate. }
  rewrite Forall_forall in H. intros Hin. apply (H tab Hin). reflexivity.
Qed.

(** ** Text of whitespace only *)

Lemma lstrip_all_space (s : str) :
  Forall (fun c => isspace c = true) s -> lstrip s = [].
Proof.
  induction 1 as [|c s Hc Hs IH]; simpl; [reflexivity|].
  rewrite Hc. exact IH.
Qed.

Lemma sub_nil (r : regex) (t : template) :
  1 <= minlen r -> sub r t [] = [].
Proof.
  intros H. unfold sub. simpl.
  destruct (match_at r None [] false) as [[n g]|] eqn:E; [|reflexivity].
  apply match_at_bounds in E. simpl in E. lia.
Qed.

(** X18: text of whitespace only is cleaned to the empty string. *)
Theorem clean_text_all_space (x : str) :
  Forall (fun c => isspace c = true) x -> _clean_text x = [].
Proof.
  intros H. unfold _clean_text. destruct x as [|c x]; [reflexivity|].
  cbv zeta.
  match goal with
  | |- sub _ _ (sub _ _ (strip ?y)) = [] =>
      assert (Hy : Forall (fun c => isspace c = true) y)
  end.
  { repeat (apply sub_chars; [simpl; repeat constructor|]). exact H. }
  unfold strip at 1. rewrite (lstrip_all_space Hy).
  change (rstrip []) with (@nil ascii).
  rewrite !sub_nil by (simpl; lia). reflexivity.
Qed.

Lemma clean_text_all_space_witness :
  _clean_text [" "%char; tab; newline; newline; newline; " "%char] = [].
Proof.
  apply (@clean_text_all_space
           [" "%char; tab; newline; newline; newline; " "%char]).
  repeat constructor.
Defined.

(** ** How many conversations an artifact can hold *)

Lemma format_length_least (conv : Conversation) (c : Z) :
  (1 <= c <= 5)%Z ->
  (32 <= len (format_for_character_ai conv (placeholder c)))%Z.
Proof.
  intros Hc. rewrite format_len, (placeholder_len Hc).
  pose proof (len_nonneg (_clean_text (original_text conv))).
  pose proof (len_nonneg (_clean_text (reply_text conv))). lia.
Qed.

Lemma emitted_count (conversations : list Conversation) :
  forall total counter, (1 <= counter <= 5)%Z ->
    (32 * Z.of_nat (length (emitted conversations total counter))
     <= Z.max 0 (max_definition_length - total))%Z.
Proof.
  induction conversations as [|conv more IH]; intros total counter Hc;
    cbn [emitted]; cbv zeta.
  - cbn [length]. lia.
  - pose proof (format_length_least conv Hc) as Hf.
    destruct (_ >? _)%Z eqn:E; [cbn [length]; lia|].
    cbn [length]. rewrite Nat2Z.inj_succ.
    specialize (IH (total + len (format_for_character_ai conv
                                   (placeholder counter)))%Z
                   (next_counter counter) (next_counter_range counter)).
    lia.
Qed.

(** X19: an artifact holds at most 996 conversation blocks. *)
Theorem at_most_996_blocks (conversations : list Conversation)
        (username : str) :
  length (blocks conversations username) <= 996.
Proof.
  rewrite blocks_emitted.
  assert (H1 : (1 <= 1 <= 5)%Z) by lia.
  pose proof (@emitted_count conversations (len (intro_of username)) 1%Z H1)
    as H.
  pose proof (len_nonneg username). rewrite intro_len in *.
  unfold max_definition_length in H. lia.
Qed.

(** * The sanitizer, twice *)

(** ** Greedy repetition of a character class *)


(** ** The pattern [\n\s*\n\s*\n], exactly *)






Section BlankLines.
Variables (A : Type) (h : str -> option str -> A).



End BlankLines.


Lemma match_at_blank_lines_nil (p : option ascii) :
  match_at Pat.blank_lines p [] false = None.
Proof. reflexivity. Qed.



(** *** After [\n\s*\n\s*\n] no run of whitespace has three newlines *)






(** *** The pattern [[ \t]+], exactly *)














(** *** [strip()] *)














(** *** The whitespace steps, twice *)




(** *** Without markup only the whitespace steps act *)






